(** * dragonfly/opt/blackbox_optimiser.py: the optimum tracker of the
      black-box optimisation harness.

    A shallow embedding of [BlackboxOptimiser] and [OptInitialiser]:
    attributes of [self] and of [self.history] are fields of a state record,
    methods are computations in a state-and-exception monad in which, as in
    Python, what a method wrote before it raised stays written. *)

From Stdlib Require Import ZArith List String Ascii Bool Lia.
From Stdlib Require Import Floats.SpecFloat.
From Stdlib Require Import Numbers.DecimalString.
From Stdlib Require Import Sorting.Permutation Sorting.Sorted.
Import ListNotations.

Set Implicit Arguments.

Local Open Scope string_scope.
Local Open Scope Z_scope.

(** ** Python floats

    [qinfo.val], [qinfo.true_val] and the two running optima are Python
    floats: IEEE binary64 values, with the infinities and NaN.  They are
    [spec_float]s, compared with the comparison of SpecFloat. *)

Definition float := spec_float.

(** [-np.inf] *)
Definition neg_inf : float := S754_infinity true.

Definition nan : float := S754_nan.

(** Python's [a > b], [a <= b] and [a == b] on floats. *)
Definition py_gt (a b : float) : bool := SFltb b a.
Definition py_le (a b : float) : bool := SFleb a b.
Definition py_eq (a b : float) : bool := SFeqb a b.

Definition is_nan (a : float) : bool :=
  match a with S754_nan => true | _ => false end.

(** The binary64 value nearest to [m * 2^e], and the one of an integer
    (exact for the small ones used in the examples below). *)
Definition float_of_dyadic (m e : Z) : float :=
  binary_normalize 53 1024 m e false.

Definition float_of_Z (z : Z) : float := float_of_dyadic z 0.

(** ** Exceptions and the monad of methods *)

Inductive exn : Type :=
| AttributeError (attr : string)
| NotImplementedError (msg : string)
| ValueError (msg : string)
| CalledMFOptimiserWithSFCaller (err_msg : string).

Inductive outcome (A : Type) : Type :=
| Ok (a : A)
| Raised (e : exn).
Arguments Raised {A} e.

(** A method reads and writes the attributes of [self] (a state [S]), and
    either returns or raises; the state it leaves is kept in both cases. *)
Definition M (S A : Type) : Type := S -> outcome A * S.

Definition ret {S A} (a : A) : M S A := fun s => (Ok a, s).

Definition raise {S A} (e : exn) : M S A := fun s => (Raised e, s).

Definition bind {S A B} (m : M S A) (k : A -> M S B) : M S B :=
  fun s =>
    match m s with
    | (Ok a, s') => k a s'
    | (Raised e, s') => (Raised e, s')
    end.

Definition gets {S A} (f : S -> A) : M S A := fun s => (Ok (f s), s).

Definition modify {S} (f : S -> S) : M S unit := fun s => (Ok tt, f s).

(** Reading an attribute that may not have been created. *)
Definition getattr {S A} (name : string) (f : S -> option A) : M S A :=
  fun s =>
    match f s with
    | Some a => (Ok a, s)
    | None => (Raised (AttributeError name), s)
    end.

Notation "x <- m ;; k" := (bind m (fun x => k))
  (at level 61, m at next level, right associativity).
Notation "m ;;; k" := (bind m (fun _ => k))
  (at level 61, right associativity).

(** [for x in xs: body(x)] *)
Fixpoint for_each {S A} (body : A -> M S unit) (xs : list A) : M S unit :=
  match xs with
  | [] => ret tt
  | x :: xs' => body x ;;; for_each body xs'
  end.

(** The state a computation leaves, and what it returned. *)
Definition exec {S A} (m : M S A) (s : S) : S := snd (m s).
Definition result {S A} (m : M S A) (s : S) : outcome A := fst (m s).

(** ** Python built-ins used by the status line *)

(** ['%d' % n] *)
Definition format_d (n : Z) : string := NilZero.string_of_int (Z.to_int n).

(** [sum] of a list of booleans ([True] counts 1). *)
Definition py_sum (bs : list bool) : Z :=
  fold_left (fun acc (b : bool) => acc + Z.b2z b) bs 0.

(** [xs[start:]] *)
Definition py_slice_from {A} (start : Z) (xs : list A) : list A :=
  let len := Z.of_nat (List.length xs) in
  let lo := if start <? 0 then Z.max (len + start) 0 else Z.min start len in
  skipn (Z.to_nat lo) xs.

(** Division rounding to nearest, ties to even. *)
Definition round_half_even (num den : Z) : Z :=
  let q := num / den in
  let r := num mod den in
  if 2 * r <? den then q
  else if den <? 2 * r then q + 1
  else if Z.even q then q else q + 1.

Definition zero_pad (width : nat) (s : string) : string :=
  string_of_list_ascii (repeat "0"%char (width - String.length s)) ++ s.

(** [n] is the magnitude in units of 1e-5. *)
Definition format_fixed5 (negative : bool) (n : Z) : string :=
  (if negative then "-" else "") ++ format_d (n / 100000) ++ "." ++
  zero_pad 5 (format_d (n mod 100000)).

(** ['%0.5f' % x]: the exact value of [x], correctly rounded to five
    decimals. *)
Definition format_0_5f (x : float) : string :=
  match x with
  | S754_nan => "nan"
  | S754_infinity s => if s then "-inf" else "inf"
  | S754_zero s => format_fixed5 s 0
  | S754_finite s m e =>
      format_fixed5 s
        (if 0 <=? e then Zpos m * 2 ^ e * 100000
         else round_half_even (Zpos m * 100000) (2 ^ (- e)))
  end.

(** ** Data model *)

(** One completed evaluation.  [fidel] is [None] when the object has no
    [fidel] attribute ([hasattr(qinfo, 'fidel')] is false). *)
Record qinfo (P F : Type) : Type := {
  point : P;
  val : float;
  true_val : float;
  fidel : option F
}.

(** What the tracker uses of [self.func_caller]. *)
Record func_caller (F : Type) : Type := {
  is_mf : bool;
  fidel_to_opt : F;
  is_fidel_to_opt : F -> bool
}.

(** The two classes of the file; [self] is an instance of one of them. *)
Inductive cls : Type := BlackboxOptimiser | OptInitialiser.

(** Keys and values of [self.to_copy_from_qinfo_to_history]. *)
Inductive qinfo_attr : Type := attr_val | attr_true_val.
Inductive history_attr : Type := attr_query_vals | attr_query_true_vals.

Definition qinfo_attr_eqb (a b : qinfo_attr) : bool :=
  match a, b with
  | attr_val, attr_val | attr_true_val, attr_true_val => true
  | _, _ => false
  end.

(** The dictionary, as a partial function on its keys. *)
Definition registry : Type := qinfo_attr -> option history_attr.

(** [d[k] = v] *)
Definition dict_set (k : qinfo_attr) (v : history_attr) (d : registry)
  : registry :=
  fun k' => if qinfo_attr_eqb k' k then Some v else d k'.

(** [self.history].  [query_at_fidel_to_opts] exists only when the caller is
    multi-fidelity. *)
Module History.
Record t (P : Type) : Type := {
  query_vals : list float;
  query_true_vals : list float;
  curr_opt_vals : list float;
  curr_opt_points : list (option P);
  curr_true_opt_vals : list float;
  curr_true_opt_points : list (option P);
  query_at_fidel_to_opts : option (list bool);
  prev_eval_points : list P;
  prev_eval_vals : list float
}.

Section Setters.
Context {P : Type}.
Implicit Type h : t P.

Definition set_query_vals v h :=
  {| query_vals := v; query_true_vals := query_true_vals h;
     curr_opt_vals := curr_opt_vals h; curr_opt_points := curr_opt_points h;
     curr_true_opt_vals := curr_true_opt_vals h;
     curr_true_opt_points := curr_true_opt_points h;
     query_at_fidel_to_opts := query_at_fidel_to_opts h;
     prev_eval_points := prev_eval_points h; prev_eval_vals := prev_eval_vals h |}.
Definition set_query_true_vals v h :=
  {| query_vals := query_vals h; query_true_vals := v;
     curr_opt_vals := curr_opt_vals h; curr_opt_points := curr_opt_points h;
     curr_true_opt_vals := curr_true_opt_vals h;
     curr_true_opt_points := curr_true_opt_points h;
     query_at_fidel_to_opts := query_at_fidel_to_opts h;
     prev_eval_points := prev_eval_points h; prev_eval_vals := prev_eval_vals h |}.
Definition set_curr_opt_vals v h :=
  {| query_vals := query_vals h; query_true_vals := query_true_vals h;
     curr_opt_vals := v; curr_opt_points := curr_opt_points h;
     curr_true_opt_vals := curr_true_opt_vals h;
     curr_true_opt_points := curr_true_opt_points h;
     query_at_fidel_to_opts := query_at_fidel_to_opts h;
     prev_eval_points := prev_eval_points h; prev_eval_vals := prev_eval_vals h |}.
Definition set_curr_opt_points v h :=
  {| query_vals := query_vals h; query_true_vals := query_true_vals h;
     curr_opt_vals := curr_opt_vals h; curr_opt_points := v;
     curr_true_opt_vals := curr_true_opt_vals h;
     curr_true_opt_points := curr_true_opt_points h;
     query_at_fidel_to_opts := query_at_fidel_to_opts h;
     prev_eval_points := prev_eval_points h; prev_eval_vals := prev_eval_vals h |}.
Definition set_curr_true_opt_vals v h :=
  {| query_vals := query_vals h; query_true_vals := query_true_vals h;
     curr_opt_vals := curr_opt_vals h; curr_opt_points := curr_opt_points h;
     curr_true_opt_vals := v;
     curr_true_opt_points := curr_true_opt_points h;
     query_at_fidel_to_opts := query_at_fidel_to_opts h;
     prev_eval_points := prev_eval_points h; prev_eval_vals := prev_eval_vals h |}.
Definition set_curr_true_opt_points v h :=
  {| query_vals := query_vals h; query_true_vals := query_true_vals h;
     curr_opt_vals := curr_opt_vals h; curr_opt_points := curr_opt_points h;
     curr_true_opt_vals := curr_true_opt_vals h;
     curr_true_opt_points := v;
     query_at_fidel_to_opts := query_at_fidel_to_opts h;
     prev_eval_points := prev_eval_points h; prev_eval_vals := prev_eval_vals h |}.
Definition set_query_at_fidel_to_opts v h :=
  {| query_vals := query_vals h; query_true_vals := query_true_vals h;
     curr_opt_vals := curr_opt_vals h; curr_opt_points := curr_opt_points h;
     curr_true_opt_vals := curr_true_opt_vals h;
     curr_true_opt_points := curr_true_opt_points h;
     query_at_fidel_to_opts := v;
     prev_eval_points := prev_eval_points h; prev_eval_vals := prev_eval_vals h |}.
Definition set_prev_eval_points v h :=
  {| query_vals := query_vals h; query_true_vals := query_true_vals h;
     curr_opt_vals := curr_opt_vals h; curr_opt_points := curr_opt_points h;
     curr_true_opt_vals := curr_true_opt_vals h;
     curr_true_opt_points := curr_true_opt_points h;
     query_at_fidel_to_opts := query_at_fidel_to_opts h;
     prev_eval_points := v; prev_eval_vals := prev_eval_vals h |}.
Definition set_prev_eval_vals v h :=
  {| query_vals := query_vals h; query_true_vals := query_true_vals h;
     curr_opt_vals := curr_opt_vals h; curr_opt_points := curr_opt_points h;
     curr_true_opt_vals := curr_true_opt_vals h;
     curr_true_opt_points := curr_true_opt_points h;
     query_at_fidel_to_opts := query_at_fidel_to_opts h;
     prev_eval_points := prev_eval_points h; prev_eval_vals := v |}.
End Setters.
End History.

(** The attributes of [self] that the file reads or writes ([func_caller]
    apart, which never changes).  Those that this file's set-up always
    creates have their plain type; an [option] is an attribute that exists
    only in multi-fidelity mode ([num_fidel_to_opt_calls]) or that the base
    class [ExperimentDesigner] is left to create ([prev_eval_points],
    [prev_eval_fidels]). *)
Record state (P F : Type) : Type := {
  num_fidel_to_opt_calls : option Z;
  curr_opt_val : float;
  curr_opt_point : option P;
  curr_true_opt_val : float;
  curr_true_opt_point : option P;
  history : History.t P;
  to_copy_from_qinfo_to_history : registry;
  prev_eval_points : option (list P);
  prev_eval_vals : list float;
  prev_eval_true_vals : list float;
  prev_eval_fidels : option (list F)
}.

Section Setters.
Context {P F : Type}.
Implicit Type s : state P F.

Definition set_num_fidel_to_opt_calls v s :=
  {| num_fidel_to_opt_calls := v; curr_opt_val := curr_opt_val s;
     curr_opt_point := curr_opt_point s; curr_true_opt_val := curr_true_opt_val s;
     curr_true_opt_point := curr_true_opt_point s; history := history s;
     to_copy_from_qinfo_to_history := to_copy_from_qinfo_to_history s;
     prev_eval_points := prev_eval_points s; prev_eval_vals := prev_eval_vals s;
     prev_eval_true_vals := prev_eval_true_vals s;
     prev_eval_fidels := prev_eval_fidels s |}.
Definition set_curr_opt_val v s :=
  {| num_fidel_to_opt_calls := num_fidel_to_opt_calls s; curr_opt_val := v;
     curr_opt_point := curr_opt_point s; curr_true_opt_val := curr_true_opt_val s;
     curr_true_opt_point := curr_true_opt_point s; history := history s;
     to_copy_from_qinfo_to_history := to_copy_from_qinfo_to_history s;
     prev_eval_points := prev_eval_points s; prev_eval_vals := prev_eval_vals s;
     prev_eval_true_vals := prev_eval_true_vals s;
     prev_eval_fidels := prev_eval_fidels s |}.
Definition set_curr_opt_point v s :=
  {| num_fidel_to_opt_calls := num_fidel_to_opt_calls s;
     curr_opt_val := curr_opt_val s;
     curr_opt_point := v; curr_true_opt_val := curr_true_opt_val s;
     curr_true_opt_point := curr_true_opt_point s; history := history s;
     to_copy_from_qinfo_to_history := to_copy_from_qinfo_to_history s;
     prev_eval_points := prev_eval_points s; prev_eval_vals := prev_eval_vals s;
     prev_eval_true_vals := prev_eval_true_vals s;
     prev_eval_fidels := prev_eval_fidels s |}.
Definition set_curr_true_opt_val v s :=
  {| num_fidel_to_opt_calls := num_fidel_to_opt_calls s;
     curr_opt_val := curr_opt_val s;
     curr_opt_point := curr_opt_point s; curr_true_opt_val := v;
     curr_true_opt_point := curr_true_opt_point s; history := history s;
     to_copy_from_qinfo_to_history := to_copy_from_qinfo_to_history s;
     prev_eval_points := prev_eval_points s; prev_eval_vals := prev_eval_vals s;
     prev_eval_true_vals := prev_eval_true_vals s;
     prev_eval_fidels := prev_eval_fidels s |}.
Definition set_curr_true_opt_point v s :=
  {| num_fidel_to_opt_calls := num_fidel_to_opt_calls s;
     curr_opt_val := curr_opt_val s;
     curr_opt_point := curr_opt_point s; curr_true_opt_val := curr_true_opt_val s;
     curr_true_opt_point := v; history := history s;
     to_copy_from_qinfo_to_history := to_copy_from_qinfo_to_history s;
     prev_eval_points := prev_eval_points s; prev_eval_vals := prev_eval_vals s;
     prev_eval_true_vals := prev_eval_true_vals s;
     prev_eval_fidels := prev_eval_fidels s |}.
Definition set_history v s :=
  {| num_fidel_to_opt_calls := num_fidel_to_opt_calls s;
     curr_opt_val := curr_opt_val s;
     curr_opt_point := curr_opt_point s; curr_true_opt_val := curr_true_opt_val s;
     curr_true_opt_point := curr_true_opt_point s; history := v;
     to_copy_from_qinfo_to_history := to_copy_from_qinfo_to_history s;
     prev_eval_points := prev_eval_points s; prev_eval_vals := prev_eval_vals s;
     prev_eval_true_vals := prev_eval_true_vals s;
     prev_eval_fidels := prev_eval_fidels s |}.
Definition set_to_copy_from_qinfo_to_history v s :=
  {| num_fidel_to_opt_calls := num_fidel_to_opt_calls s;
     curr_opt_val := curr_opt_val s;
     curr_opt_point := curr_opt_point s; curr_true_opt_val := curr_true_opt_val s;
     curr_true_opt_point := curr_true_opt_point s; history := history s;
     to_copy_from_qinfo_to_history := v;
     prev_eval_points := prev_eval_points s; prev_eval_vals := prev_eval_vals s;
     prev_eval_true_vals := prev_eval_true_vals s;
     prev_eval_fidels := prev_eval_fidels s |}.
Definition set_prev_eval_points v s :=
  {| num_fidel_to_opt_calls := num_fidel_to_opt_calls s;
     curr_opt_val := curr_opt_val s;
     curr_opt_point := curr_opt_point s; curr_true_opt_val := curr_true_opt_val s;
     curr_true_opt_point := curr_true_opt_point s; history := history s;
     to_copy_from_qinfo_to_history := to_copy_from_qinfo_to_history s;
     prev_eval_points := v; prev_eval_vals := prev_eval_vals s;
     prev_eval_true_vals := prev_eval_true_vals s;
     prev_eval_fidels := prev_eval_fidels s |}.
Definition set_prev_eval_vals v s :=
  {| num_fidel_to_opt_calls := num_fidel_to_opt_calls s;
     curr_opt_val := curr_opt_val s;
     curr_opt_point := curr_opt_point s; curr_true_opt_val := curr_true_opt_val s;
     curr_true_opt_point := curr_true_opt_point s; history := history s;
     to_copy_from_qinfo_to_history := to_copy_from_qinfo_to_history s;
     prev_eval_points := prev_eval_points s; prev_eval_vals := v;
     prev_eval_true_vals := prev_eval_true_vals s;
     prev_eval_fidels := prev_eval_fidels s |}.
Definition set_prev_eval_true_vals v s :=
  {| num_fidel_to_opt_calls := num_fidel_to_opt_calls s;
     curr_opt_val := curr_opt_val s;
     curr_opt_point := curr_opt_point s; curr_true_opt_val := curr_true_opt_val s;
     curr_true_opt_point := curr_true_opt_point s; history := history s;
     to_copy_from_qinfo_to_history := to_copy_from_qinfo_to_history s;
     prev_eval_points := prev_eval_points s; prev_eval_vals := prev_eval_vals s;
     prev_eval_true_vals := v;
     prev_eval_fidels := prev_eval_fidels s |}.
Definition set_prev_eval_fidels (v : option (list F)) s : state P F :=
  {| num_fidel_to_opt_calls := num_fidel_to_opt_calls s;
     curr_opt_val := curr_opt_val s;
     curr_opt_point := curr_opt_point s; curr_true_opt_val := curr_true_opt_val s;
     curr_true_opt_point := curr_true_opt_point s; history := history s;
     to_copy_from_qinfo_to_history := to_copy_from_qinfo_to_history s;
     prev_eval_points := prev_eval_points s; prev_eval_vals := prev_eval_vals s;
     prev_eval_true_vals := prev_eval_true_vals s;
     prev_eval_fidels := v |}.

(** [self.history.<attr> = ...] and [self.history.<attr>.append(...)] *)
Definition on_history (f : History.t P -> History.t P) : M (state P F) unit :=
  modify (fun s => set_history (f (history s)) s).
End Setters.

(** ** The exception of the capability check *)

(** [CalledMFOptimiserWithSFCaller.__init__]; the two arguments are
    [str(optimiser)] and [str(func_caller)]. *)
Definition err_msg (str_optimiser str_func_caller : string) : string :=
  "Called optimiser " ++ str_optimiser ++ " with func_caller " ++
  str_func_caller ++ ". func_caller needs to be " ++ "multi-fidelity.".

Definition CalledMFOptimiserWithSFCaller_init
    (str_optimiser str_func_caller : string) : exn :=
  CalledMFOptimiserWithSFCaller (err_msg str_optimiser str_func_caller).

(** ** Methods *)

Section Methods.
Variables P F : Type.
(** [self.func_caller] *)
Variable fc : func_caller F.

#[local] Abbreviation St := (state P F).
#[local] Abbreviation qinfo := (qinfo P F).

(** *** Set-up *)

(** Overridden by [OptInitialiser]. *)
Definition _opt_method_set_up (c : cls) : M St unit :=
  match c with
  | BlackboxOptimiser =>
      raise (NotImplementedError "Implement in Optimisation Method class.")
  | OptInitialiser => ret tt
  end.

Definition _blackbox_optimise_set_up : M St unit :=
  (* Initialise optimal value and point *)
  modify (set_curr_opt_val neg_inf) ;;;
  modify (set_curr_opt_point None) ;;;
  modify (set_curr_true_opt_val neg_inf) ;;;
  modify (set_curr_true_opt_point None) ;;;
  (* Set up history *)
  on_history (History.set_query_vals []) ;;;
  on_history (History.set_query_true_vals []) ;;;
  on_history (History.set_curr_opt_vals []) ;;;
  on_history (History.set_curr_opt_points []) ;;;
  on_history (History.set_curr_true_opt_vals []) ;;;
  on_history (History.set_curr_true_opt_points []) ;;;
  (if is_mf fc
   then on_history (History.set_query_at_fidel_to_opts (Some []))
   else ret tt) ;;;
  (* Set up attributes to be copied from history *)
  modify (fun s => set_to_copy_from_qinfo_to_history
                     (dict_set attr_val attr_query_vals
                        (to_copy_from_qinfo_to_history s)) s) ;;;
  modify (fun s => set_to_copy_from_qinfo_to_history
                     (dict_set attr_true_val attr_query_true_vals
                        (to_copy_from_qinfo_to_history s)) s) ;;;
  (* Set up previous evaluations *)
  on_history (History.set_prev_eval_points []) ;;;
  on_history (History.set_prev_eval_vals []) ;;;
  modify (set_prev_eval_vals []) ;;;
  modify (set_prev_eval_true_vals []).

Definition _exd_child_set_up (c : cls) : M St unit :=
  (if is_mf fc
   then modify (set_num_fidel_to_opt_calls (Some 0))
   else ret tt) ;;;
  _blackbox_optimise_set_up ;;;
  _opt_method_set_up c ;;;
  modify (set_prev_eval_vals []).

Definition _get_problem_str : string := "Optimisation".

(** *** Book-keeping *)

(** [query_is_at_fidel_to_opt] defaults to [None]. *)
Definition _update_opt_point_and_val
    (q : qinfo) (query_is_at_fidel_to_opt : option bool) : M St unit :=
  match query_is_at_fidel_to_opt with
  | Some false =>
      (* if the fidelity queried at is not fidel_to_opt, then return *)
      ret tt
  | _ =>
      (* Optimise curr_opt_val and curr_true_opt_val *)
      opt <- gets (@curr_opt_val P F) ;;
      (if py_gt (val q) opt
       then modify (set_curr_opt_val (val q)) ;;;
            modify (set_curr_opt_point (Some (point q)))
       else ret tt) ;;;
      true_opt <- gets (@curr_true_opt_val P F) ;;
      (if py_gt (true_val q) true_opt
       then modify (set_curr_true_opt_val (true_val q)) ;;;
            modify (set_curr_true_opt_point (Some (point q)))
       else ret tt)
  end.

(** Pass by default; [OptInitialiser] inherits it. *)
Definition _opt_method_update_history (c : cls) (q : qinfo) : M St unit :=
  match c with
  | BlackboxOptimiser | OptInitialiser => ret tt
  end.

(** [qinfo.fidel if hasattr(qinfo, 'fidel') else
    self.func_caller.fidel_to_opt] *)
Definition eval_fidel_of (q : qinfo) : F :=
  match fidel q with
  | Some f => f
  | None => fidel_to_opt fc
  end.

(** Inherited by [OptInitialiser]; [c] is the class of [self], on which
    the hook at the end is looked up. *)
Definition _exd_child_update_history (c : cls) (q : qinfo) : M St unit :=
  (* check fidelity *)
  (if is_mf fc then
     let eval_fidel := eval_fidel_of q in
     let query_is_at_fidel_to_opt := is_fidel_to_opt fc eval_fidel in
     flags <- getattr "query_at_fidel_to_opts"
                (fun s => History.query_at_fidel_to_opts (history s)) ;;
     on_history (History.set_query_at_fidel_to_opts
                   (Some (flags ++ [query_is_at_fidel_to_opt])%list)) ;;;
     n <- getattr "num_fidel_to_opt_calls" (@num_fidel_to_opt_calls P F) ;;
     modify (set_num_fidel_to_opt_calls
               (Some (n + Z.b2z query_is_at_fidel_to_opt))) ;;;
     _update_opt_point_and_val q (Some query_is_at_fidel_to_opt)
   else
     _update_opt_point_and_val q None) ;;;
  (* Now add to history *)
  modify (fun s => set_history (History.set_curr_opt_vals
            (History.curr_opt_vals (history s) ++ [curr_opt_val s])%list
            (history s)) s) ;;;
  modify (fun s => set_history (History.set_curr_opt_points
            (History.curr_opt_points (history s) ++ [curr_opt_point s])%list
            (history s)) s) ;;;
  modify (fun s => set_history (History.set_curr_true_opt_vals
            (History.curr_true_opt_vals (history s) ++ [curr_true_opt_val s])%list
            (history s)) s) ;;;
  modify (fun s => set_history (History.set_curr_true_opt_points
            (History.curr_true_opt_points (history s)
               ++ [curr_true_opt_point s])%list
            (history s)) s) ;;;
  (* Any method specific updating *)
  _opt_method_update_history c q.

(** *** Reporting *)

Definition _get_opt_method_header_str : string := "".

Definition _get_exd_child_header_str : string :=
  let ret0 := "curr_max=<current_maximum_value>" in
  let ret1 :=
    if is_mf fc
    then ret0 ++ ", f2o=<#queries_at_highest_fidelity>" ++
                 "(<#queries_at_highest_fidelity_in_last_20_iterations>)"
    else ret0 in
  ret1 ++ _get_opt_method_header_str.

Definition _get_opt_method_report_results_str : string := "".

(** Overridden by [OptInitialiser]. *)
Definition _get_exd_child_report_results_str (c : cls) : M St string :=
  match c with
  | OptInitialiser => ret ""
  | BlackboxOptimiser =>
      opt <- gets (@curr_opt_val P F) ;;
      let best_val_str := "curr_max=" ++ format_0_5f opt in
      fidel_to_opt_str <-
        (if is_mf fc then
           let window_length := 20 in
           flags <- getattr "query_at_fidel_to_opts"
                      (fun s => History.query_at_fidel_to_opts (history s)) ;;
           let window_queries_at_f2o := py_slice_from (- window_length) flags in
           n <- getattr "num_fidel_to_opt_calls" (@num_fidel_to_opt_calls P F) ;;
           ret (", #f2o=" ++ format_d n ++ "(" ++
                format_d (py_sum window_queries_at_f2o) ++ "/" ++
                format_d window_length ++ ")")
         else ret "") ;;
      let opt_method_str := _get_opt_method_report_results_str in
      ret (best_val_str ++ fidel_to_opt_str ++ opt_method_str ++ ", ")
  end.

(** *** Previous evaluations *)

(** One turn of the loop of [_exd_child_handle_prev_evals]. *)
Definition handle_prev_eval (q : qinfo) : M St unit :=
  (if is_mf fc then
     let eval_fidel := eval_fidel_of q in
     fidels <- getattr "prev_eval_fidels" (@prev_eval_fidels P F) ;;
     modify (set_prev_eval_fidels (Some (fidels ++ [eval_fidel])%list)) ;;;
     let query_is_at_fidel_to_opt := is_fidel_to_opt fc eval_fidel in
     _update_opt_point_and_val q (Some query_is_at_fidel_to_opt)
   else
     _update_opt_point_and_val q None) ;;;
  points <- getattr "prev_eval_points" (@prev_eval_points P F) ;;
  modify (set_prev_eval_points (Some (points ++ [point q])%list)) ;;;
  modify (fun s => set_prev_eval_vals (prev_eval_vals s ++ [val q])%list s).

(** Overridden by [OptInitialiser]; [qinfos] is
    [self.options.prev_evaluations.qinfos].  The two assignments at the end
    make the history's lists the optimiser's own. *)
Definition _exd_child_handle_prev_evals (c : cls) (qinfos : list qinfo)
  : M St unit :=
  match c with
  | OptInitialiser =>
      raise (ValueError "No reason to call this method in an initialiser.")
  | BlackboxOptimiser =>
      for_each handle_prev_eval qinfos ;;;
      points <- getattr "prev_eval_points" (@prev_eval_points P F) ;;
      on_history (History.set_prev_eval_points points) ;;;
      vals <- gets (@prev_eval_vals P F) ;;
      on_history (History.set_prev_eval_vals vals)
  end.

Definition _get_final_return_quantities
  : M St (float * option P * History.t P) :=
  opt <- gets (@curr_opt_val P F) ;;
  opt_point <- gets (@curr_opt_point P F) ;;
  hist <- gets (@history P F) ;;
  ret (opt, opt_point, hist).

(** *** Methods that only [OptInitialiser] defines in this file *)

Definition _get_method_str : string := "initialiser".

Definition is_asynchronous : bool := true.

Definition is_an_mf_method : bool := is_mf fc.

Definition _get_initial_qinfos (num_init_evals : Z) : M St (list qinfo) :=
  raise (ValueError "No reason to call this method in an initialiser.").

Definition _determine_next_query : M St qinfo :=
  raise (ValueError "No reason to call this method in an initialiser.").

Definition _determine_next_batch_of_queries (batch_size : Z)
  : M St (list qinfo) :=
  raise (ValueError "No reason to call this method in an initialiser.").

Definition _add_data_to_model (qinfos : list qinfo) : M St unit := ret tt.

Definition _child_build_new_model : M St unit := ret tt.
End Methods.

(** ** The driver's side of an update *)

Section Driver.
Variables P F : Type.
Variable fc : func_caller F.

#[local] Abbreviation St := (state P F).
#[local] Abbreviation qinfo := (qinfo P F).

(** [getattr(qinfo, qinfo_name)] *)
Definition qinfo_getattr (a : qinfo_attr) (q : qinfo) : float :=
  match a with
  | attr_val => val q
  | attr_true_val => true_val q
  end.

(** [getattr(self.history, history_name).append(x)] *)
Definition history_append (h : history_attr) (x : float) : M St unit :=
  match h with
  | attr_query_vals =>
      on_history (fun hh =>
        History.set_query_vals (History.query_vals hh ++ [x])%list hh)
  | attr_query_true_vals =>
      on_history (fun hh =>
        History.set_query_true_vals (History.query_true_vals hh ++ [x])%list hh)
  end.

(** Modelled from the spec: the copy of a record's attributes into the
    history, which the base class [ExperimentDesigner] (exd_core, not among
    the sources) performs for each entry of
    [to_copy_from_qinfo_to_history]; section 4.2 step 3 has it append
    [record.value] and [record.true_value] to their sequences on every
    update. *)
Definition copy_from_qinfo_to_history (q : qinfo) : M St unit :=
  for_each (fun a =>
    d <- gets (@to_copy_from_qinfo_to_history P F) ;;
    match d a with
    | Some h => history_append h (qinfo_getattr a q)
    | None => ret tt
    end) [attr_val; attr_true_val].

(** Modelled from the spec: the update hook of the base class
    [ExperimentDesigner] (exd_core, not among the sources), for one
    completed evaluation: the copy above, then the child's update. *)
Definition _update_history (c : cls) (q : qinfo) : M St unit :=
  copy_from_qinfo_to_history q ;;;
  _exd_child_update_history fc c q.

(** Modelled from the spec: the capability check of construction
    (sections 4.1 and 7), whose raise site is not in
    blackbox_optimiser.py: a multi-fidelity method bound to a caller that
    is not multi-fidelity is refused with the exception declared here. *)
Definition capability_check
    (is_an_mf_method : bool) (str_optimiser str_func_caller : string)
  : M St unit :=
  if is_an_mf_method && negb (is_mf fc)
  then raise (CalledMFOptimiserWithSFCaller_init str_optimiser str_func_caller)
  else ret tt.

(** Modelled from the spec: a whole run as the driver makes it (section 2,
    control flow): construction, set-up, then one update per completed
    evaluation. *)
Definition run (c : cls) (is_an_mf_method : bool)
    (str_optimiser str_func_caller : string) (qs : list qinfo) : M St unit :=
  capability_check is_an_mf_method str_optimiser str_func_caller ;;;
  _exd_child_set_up fc c ;;;
  for_each (_update_history c) qs.
End Driver.

(** ** Vocabulary of the statements *)

Section Vocabulary.
Variables P F : Type.
Variable fc : func_caller F.

#[local] Abbreviation St := (state P F).
#[local] Abbreviation qinfo := (qinfo P F).

(** The state in which set-up leaves [self], from any earlier state.  On
    [BlackboxOptimiser] itself, whose [_opt_method_set_up] is abstract, it is
    the state at the [NotImplementedError]: the one from which the set-up of
    a method class goes on. *)
Definition after_set_up (c : cls) (s0 : St) : St :=
  exec (_exd_child_set_up fc c) s0.

(** The record is at the fidelity to optimise (always, without
    fidelities). *)
Definition at_fidel_to_opt (q : qinfo) : bool :=
  is_fidel_to_opt fc (eval_fidel_of fc q).

Definition eligible (q : qinfo) : bool :=
  if is_mf fc then at_fidel_to_opt q else true.

(** [m] is a greatest element of [xs]. *)
Definition is_max_of (m : float) (xs : list float) : Prop :=
  In m xs /\ forall x, In x xs -> py_le x m = true.

(** The four optimum attributes. *)
Definition optimum (s : St) : float * option P * float * option P :=
  (curr_opt_val s, curr_opt_point s, curr_true_opt_val s, curr_true_opt_point s).

(** The multi-fidelity attributes exist. *)
Definition ready (s : St) : Prop :=
  is_mf fc = true ->
  (exists n, num_fidel_to_opt_calls s = Some n) /\
  (exists flags, History.query_at_fidel_to_opts (history s) = Some flags).
End Vocabulary.

Section Vocabulary2.
Variables P F : Type.
Variable fc : func_caller F.

#[local] Abbreviation St := (state P F).
#[local] Abbreviation qinfo := (qinfo P F).

(** An instance on which no attribute has been assigned yet: the optional
    ones are absent, the others hold a placeholder that set-up overwrites. *)
Definition blank : St :=
  {| num_fidel_to_opt_calls := None;
     curr_opt_val := nan; curr_opt_point := None;
     curr_true_opt_val := nan; curr_true_opt_point := None;
     history :=
       {| History.query_vals := []; History.query_true_vals := [];
          History.curr_opt_vals := []; History.curr_opt_points := [];
          History.curr_true_opt_vals := []; History.curr_true_opt_points := [];
          History.query_at_fidel_to_opts := None;
          History.prev_eval_points := []; History.prev_eval_vals := [] |};
     to_copy_from_qinfo_to_history := fun _ => None;
     prev_eval_points := None; prev_eval_vals := [];
     prev_eval_true_vals := []; prev_eval_fidels := None |}.

(** Neither value of the record is NaN. *)
Definition real_valued (q : qinfo) : bool :=
  negb (is_nan (val q)) && negb (is_nan (true_val q)).

(** The running maximum of [vs] above [m], under Python's [>]. *)
Definition running_max (m : float) (vs : list float) : float :=
  fold_left (fun m v => if py_gt v m then v else m) vs m.

(** The updates of a list of records, in order. *)
Definition updates (c : cls) (qs : list qinfo) : M St unit :=
  for_each (_exd_child_update_history fc c) qs.

(** How many of the records are at the fidelity to optimise. *)
Definition count_at_fidel_to_opt (qs : list qinfo) : Z :=
  Z.of_nat (List.length (filter (at_fidel_to_opt fc) qs)).

(** How many carry a fidelity that is the one to optimise, and how many
    carry none. *)
Definition count_tagged_at_fidel_to_opt (qs : list qinfo) : Z :=
  Z.of_nat (List.length (filter (fun q =>
    match fidel q with
    | Some f => is_fidel_to_opt fc f
    | None => false
    end) qs)).

Definition count_untagged (qs : list qinfo) : Z :=
  Z.of_nat (List.length (filter (fun q =>
    match fidel q with Some _ => false | None => true end) qs)).
End Vocabulary2.

Arguments blank {P F}.

Section Vocabulary3.
Variables P F : Type.
Variable fc : func_caller F.

#[local] Abbreviation St := (state P F).
#[local] Abbreviation qinfo := (qinfo P F).

(** What the attributes outside the optimum and the per-step sequences
    are: untouched from [s] to [s']. *)
Definition same_rest (s s' : St) : Prop :=
  to_copy_from_qinfo_to_history s' = to_copy_from_qinfo_to_history s /\
  prev_eval_points s' = prev_eval_points s /\
  prev_eval_vals s' = prev_eval_vals s /\
  prev_eval_true_vals s' = prev_eval_true_vals s /\
  prev_eval_fidels s' = prev_eval_fidels s /\
  History.prev_eval_points (history s') = History.prev_eval_points (history s) /\
  History.prev_eval_vals (history s') = History.prev_eval_vals (history s).

(** The optimum of [s'] is that of [s] improved by [q] where [q] is
    eligible and strictly greater. *)
Definition improved_by (q : qinfo) (s s' : St) : Prop :=
  curr_opt_val s' =
    (if eligible fc q && py_gt (val q) (curr_opt_val s)
     then val q else curr_opt_val s) /\
  curr_opt_point s' =
    (if eligible fc q && py_gt (val q) (curr_opt_val s)
     then Some (point q) else curr_opt_point s) /\
  curr_true_opt_val s' =
    (if eligible fc q && py_gt (true_val q) (curr_true_opt_val s)
     then true_val q else curr_true_opt_val s) /\
  curr_true_opt_point s' =
    (if eligible fc q && py_gt (true_val q) (curr_true_opt_val s)
     then Some (point q) else curr_true_opt_point s).

(** The four snapshot sequences of [s'] are those of [s] with the optimum
    of [s'] appended. *)
Definition snapshot_appended (s s' : St) : Prop :=
  History.curr_opt_vals (history s') =
    (History.curr_opt_vals (history s) ++ [curr_opt_val s'])%list /\
  History.curr_opt_points (history s') =
    (History.curr_opt_points (history s) ++ [curr_opt_point s'])%list /\
  History.curr_true_opt_vals (history s') =
    (History.curr_true_opt_vals (history s) ++ [curr_true_opt_val s'])%list /\
  History.curr_true_opt_points (history s') =
    (History.curr_true_opt_points (history s) ++ [curr_true_opt_point s'])%list.

(** The multi-fidelity book-keeping of one update: the flag is appended
    and counted; without fidelities both attributes are left alone. *)
Definition fidelity_counted (q : qinfo) (s s' : St) : Prop :=
  if is_mf fc then
    exists n flags,
      num_fidel_to_opt_calls s = Some n /\
      History.query_at_fidel_to_opts (history s) = Some flags /\
      num_fidel_to_opt_calls s' = Some (n + Z.b2z (at_fidel_to_opt fc q)) /\
      History.query_at_fidel_to_opts (history s') =
        Some (flags ++ [at_fidel_to_opt fc q])%list
  else
    num_fidel_to_opt_calls s' = num_fidel_to_opt_calls s /\
    History.query_at_fidel_to_opts (history s') =
      History.query_at_fidel_to_opts (history s).
End Vocabulary3.

(** ** Runs *)

(** [chain R xs s s']: [s'] is reached from [s] by one [R]-step per element
    of [xs], in order. *)
Inductive chain {S A : Type} (R : A -> S -> S -> Prop)
  : list A -> S -> S -> Prop :=
| chain_nil (s : S) : chain R [] s s
| chain_cons (x : A) (xs : list A) (s s1 s2 : S) :
    R x s s1 -> chain R xs s1 s2 -> chain R (x :: xs) s s2.

Section Vocabulary4.
Variables P F : Type.
Variable fc : func_caller F.

#[local] Abbreviation St := (state P F).
#[local] Abbreviation qinfo := (qinfo P F).

(** The record's two values are appended to the two query sequences. *)
Definition query_appended (q : qinfo) (s s' : St) : Prop :=
  History.query_vals (history s') =
    (History.query_vals (history s) ++ [val q])%list /\
  History.query_true_vals (history s') =
    (History.query_true_vals (history s) ++ [true_val q])%list.

Definition query_kept (s s' : St) : Prop :=
  History.query_vals (history s') = History.query_vals (history s) /\
  History.query_true_vals (history s') = History.query_true_vals (history s).

(** The registry sends the two values of a record to the two query
    sequences. *)
Definition registered (s : St) : Prop :=
  to_copy_from_qinfo_to_history s attr_val = Some attr_query_vals /\
  to_copy_from_qinfo_to_history s attr_true_val = Some attr_query_true_vals.

(** The updates of a list of records as the driver makes them. *)
Definition driver_updates (c : cls) (qs : list qinfo) : M St unit :=
  for_each (_update_history fc c) qs.
End Vocabulary4.

Section Vocabulary5.
Variables P F : Type.
Variable fc : func_caller F.

#[local] Abbreviation St := (state P F).
#[local] Abbreviation qinfo := (qinfo P F).

(** What one update of the child does to a ready state. *)
Definition child_step (q : qinfo) (s s' : St) : Prop :=
  improved_by fc q s s' /\ snapshot_appended s s' /\
  fidelity_counted fc q s s' /\ same_rest s s' /\ query_kept s s'.

(** What one update of the driver does to a ready, registered state. *)
Definition driver_step (q : qinfo) (s s' : St) : Prop :=
  improved_by fc q s s' /\ snapshot_appended s s' /\
  fidelity_counted fc q s s' /\ same_rest s s' /\ query_appended q s s'.
End Vocabulary5.

(** ** Concrete callers and records for the examples *)

(** A caller without fidelities; points are numbered. *)
Definition sf_caller : func_caller string :=
  {| is_mf := false; fidel_to_opt := "high"; is_fidel_to_opt := fun _ => true |}.

(** A multi-fidelity caller whose fidelity to optimise is ["high"]. *)
Definition mf_caller : func_caller string :=
  {| is_mf := true; fidel_to_opt := "high";
     is_fidel_to_opt := fun f => String.eqb f "high" |}.

Definition record (p : nat) (v tv : Z) (f : option string) : qinfo nat string :=
  {| point := p; val := float_of_Z v; true_val := float_of_Z tv; fidel := f |}.

Section Vocabulary6.
Variables P F : Type.
Variable fc : func_caller F.

#[local] Abbreviation St := (state P F).
#[local] Abbreviation qinfo := (qinfo P F).

(** The per-step sequences, the counter and the registry are the same in
    [s] and [s']. *)
Definition per_step_kept (s s' : St) : Prop :=
  History.query_vals (history s') = History.query_vals (history s) /\
  History.query_true_vals (history s') = History.query_true_vals (history s) /\
  History.curr_opt_vals (history s') = History.curr_opt_vals (history s) /\
  History.curr_opt_points (history s') = History.curr_opt_points (history s) /\
  History.curr_true_opt_vals (history s') =
    History.curr_true_opt_vals (history s) /\
  History.curr_true_opt_points (history s') =
    History.curr_true_opt_points (history s) /\
  History.query_at_fidel_to_opts (history s') =
    History.query_at_fidel_to_opts (history s) /\
  num_fidel_to_opt_calls s' = num_fidel_to_opt_calls s /\
  to_copy_from_qinfo_to_history s' = to_copy_from_qinfo_to_history s.

(** The lists that seeding appends to exist. *)
Definition seedable (s : St) : Prop :=
  (exists points, prev_eval_points s = Some points) /\
  (is_mf fc = true -> exists fidels, prev_eval_fidels s = Some fidels).

(** One previous evaluation handled: the optimum is improved as by an
    update, the record is appended to the lists of previous evaluations,
    and the per-step sequences and the counter are left alone. *)
Definition seed_step (q : qinfo) (s s' : St) : Prop :=
  improved_by fc q s s' /\ per_step_kept s s' /\
  (exists points, prev_eval_points s = Some points /\
                  prev_eval_points s' = Some (points ++ [point q])%list) /\
  prev_eval_vals s' = (prev_eval_vals s ++ [val q])%list /\
  History.prev_eval_points (history s') = History.prev_eval_points (history s) /\
  History.prev_eval_vals (history s') = History.prev_eval_vals (history s).

(** An instance on which the base class has created the lists of previous
    evaluations, empty. *)
Definition constructed : St :=
  set_prev_eval_fidels (Some []) (set_prev_eval_points (Some []) blank).

(** The last [n] elements of a list (all of it when it is shorter). *)
Definition last_n {A} (n : nat) (xs : list A) : list A :=
  skipn (List.length xs - n) xs.

(** The status line with the size of the window as its denominator. *)
Definition status_line_with_window_size (s : St) : option string :=
  match num_fidel_to_opt_calls s, History.query_at_fidel_to_opts (history s) with
  | Some n, Some flags =>
      let window := last_n (Nat.min 20 (List.length flags)) flags in
      Some ("curr_max=" ++ format_0_5f (curr_opt_val s) ++
            ", #f2o=" ++ format_d n ++
            "(" ++ format_d (Z.of_nat (count_occ Bool.bool_dec window true)) ++
            "/" ++ format_d (Z.of_nat (List.length window)) ++ ")" ++ ", ")
  | _, _ => None
  end.
End Vocabulary6.

Arguments constructed {P F}.
(** ** Vocabulary of the further properties *)

Section Vocabulary7.
Variables P F : Type.
Variable fc : func_caller F.

(** The value [v] and the point [p] come from one eligible record of [qs],
    whose value (read by [get]) is [v] and whose point is [p]; with no point
    the value is the sentinel. *)
Definition attained_in (get : qinfo P F -> float) (qs : list (qinfo P F))
    (v : float) (p : option P) : Prop :=
  match p with
  | Some x =>
      exists q, In q qs /\ eligible fc q = true /\ point q = x /\ get q = v
  | None => v = neg_inf
  end.

(** Python's [<=] as a relation. *)
Definition py_le_rel (a b : float) : Prop := py_le a b = true.

(** The value [v] and the point [p] come from the first eligible record of
    [qs] whose value is as great: every eligible record before it has a
    value strictly below [v]. *)
Definition first_to_attain (get : qinfo P F -> float) (qs : list (qinfo P F))
    (v : float) (p : option P) : Prop :=
  match p with
  | Some x =>
      exists pre q post,
        qs = (pre ++ q :: post)%list /\
        eligible fc q = true /\ point q = x /\ get q = v /\
        forall q', In q' pre -> eligible fc q' = true ->
                   py_gt v (get q') = true
  | None => v = neg_inf
  end.

(** All the eligible records of [qs] have a value that is at most [v]. *)
Definition bounds_eligible (get : qinfo P F -> float) (qs : list (qinfo P F))
    (v : float) : Prop :=
  forall q, In q qs -> eligible fc q = true -> py_le (get q) v = true.
End Vocabulary7.

(** ** Order facts about the float comparison *)

Lemma SFcompare_nan_r (a : float) : SFcompare a S754_nan = None.
Proof. destruct a; reflexivity. Qed.

Lemma SFcompare_not_nan (a b : float) :
  is_nan a = false -> is_nan b = false -> exists c, SFcompare a b = Some c.
Proof.
  destruct a as [sa|sa| |sa ma ea], b as [sb|sb| |sb mb eb];
    simpl; intros Ha Hb; try discriminate; eauto.
Qed.

Lemma SFcompare_antisym (a b : float) :
  SFcompare b a = option_map CompOpp (SFcompare a b).
Proof.
  destruct a as [sa|sa| |sa ma ea], b as [sb|sb| |sb mb eb]; simpl;
    try reflexivity;
    try (destruct sa; reflexivity);
    try (destruct sb; reflexivity);
    try (destruct sa, sb; reflexivity).
  change (Pos.compare_cont Eq ma mb) with (ma ?= mb)%positive.
  change (Pos.compare_cont Eq mb ma) with (mb ?= ma)%positive.
  destruct sa, sb; simpl; try reflexivity;
    rewrite (Z.compare_antisym ea eb);
    destruct (ea ?= eb)%Z; simpl; try reflexivity;
    rewrite (Pos.compare_antisym ma mb);
    destruct (ma ?= mb)%positive; reflexivity.
Qed.

Lemma SFcompare_refl (a : float) :
  is_nan a = false -> SFcompare a a = Some Eq.
Proof.
  destruct a as [sa|sa| |sa ma ea]; simpl; intros H; try discriminate;
    try reflexivity; try (destruct sa; reflexivity).
  destruct sa; rewrite Z.compare_refl;
    change (Pos.compare_cont Eq ma ma) with (ma ?= ma)%positive;
    rewrite Pos.compare_refl; reflexivity.
Qed.

Ltac split_compare :=
  repeat match goal with
  | H : context [Pos.compare_cont Eq ?x ?y] |- _ =>
      change (Pos.compare_cont Eq x y) with (Pos.compare x y) in H
  | |- context [Pos.compare_cont Eq ?x ?y] =>
      change (Pos.compare_cont Eq x y) with (Pos.compare x y)
  end;
  repeat match goal with
  | H : context [Z.compare ?x ?y] |- _ =>
      destruct (Z.compare_spec x y); simpl in H; try discriminate H
  | H : context [Pos.compare ?x ?y] |- _ =>
      destruct (Pos.compare_spec x y); simpl in H; try discriminate H
  | |- context [Z.compare ?x ?y] =>
      destruct (Z.compare_spec x y); simpl
  | |- context [Pos.compare ?x ?y] =>
      destruct (Pos.compare_spec x y); simpl
  end;
  subst; try reflexivity; try discriminate; try lia.

Lemma SFcompare_Lt_trans (a b c : float) :
  SFcompare a b = Some Lt -> SFcompare b c = Some Lt -> SFcompare a c = Some Lt.
Proof.
  destruct a as [sa|sa| |sa ma ea], b as [sb|sb| |sb mb eb],
           c as [sc|sc| |sc mc ec]; simpl;
    try discriminate;
    try (destruct sa; discriminate); try (destruct sb; discriminate);
    try (destruct sc; discriminate);
    try (destruct sa, sb; discriminate); try (destruct sb, sc; discriminate);
    try (destruct sa, sb, sc; (discriminate || reflexivity)).
  all: destruct sa, sb, sc; intros H1 H2; try discriminate; try reflexivity;
    split_compare.
Qed.

Lemma SFcompare_Eq_Lt_trans (a b c : float) :
  SFcompare a b = Some Eq -> SFcompare b c = Some Lt -> SFcompare a c = Some Lt.
Proof.
  destruct a as [sa|sa| |sa ma ea], b as [sb|sb| |sb mb eb],
           c as [sc|sc| |sc mc ec]; simpl;
    try discriminate;
    try (destruct sa; discriminate); try (destruct sb; discriminate);
    try (destruct sc; discriminate);
    try (destruct sa, sb; discriminate); try (destruct sb, sc; discriminate);
    try (destruct sa, sb, sc; (discriminate || reflexivity)).
  all: destruct sa, sb, sc; intros H1 H2; try discriminate; try reflexivity;
    split_compare.
Qed.

Lemma py_gt_false_le (a b : float) :
  is_nan a = false -> is_nan b = false -> py_gt a b = false -> py_le a b = true.
Proof.
  intros Ha Hb. unfold py_gt, py_le, SFltb, SFleb.
  rewrite (SFcompare_antisym a b).
  destruct (SFcompare_not_nan a b Ha Hb) as [c ->].
  destruct c; simpl; congruence.
Qed.

Lemma py_le_gt_trans (w m v : float) :
  py_le w m = true -> py_gt v m = true -> py_le w v = true.
Proof.
  unfold py_gt, py_le, SFltb, SFleb. intros Hwm Hmv.
  destruct (SFcompare m v) as [[]|] eqn:Emv; try discriminate.
  destruct (SFcompare w m) as [[]|] eqn:Ewm; try discriminate.
  - now rewrite (SFcompare_Eq_Lt_trans _ _ _ Ewm Emv).
  - now rewrite (SFcompare_Lt_trans _ _ _ Ewm Emv).
Qed.

Lemma py_le_refl (a : float) : is_nan a = false -> py_le a a = true.
Proof.
  intros Ha. unfold py_le, SFleb. now rewrite (SFcompare_refl _ Ha).
Qed.

Lemma py_eq_not_gt (a b : float) : py_eq a b = true -> py_gt a b = false.
Proof.
  unfold py_eq, py_gt, SFeqb, SFltb. rewrite (SFcompare_antisym a b).
  destruct (SFcompare a b) as [[]|]; simpl; congruence.
Qed.

Lemma py_gt_irrefl (a : float) : py_gt a a = false.
Proof.
  unfold py_gt, SFltb.
  destruct (SFcompare a a) as [[]|] eqn:E; try reflexivity.
  pose proof (SFcompare_antisym a a) as H. rewrite E in H. discriminate H.
Qed.

Lemma neg_inf_not_gt (b : float) : py_gt neg_inf b = false.
Proof. destruct b as [s|[]| |s m e]; reflexivity. Qed.


(** ** The monad *)

Section MonadFacts.
Context {S A B : Type}.

End MonadFacts.

Section ForEach.
Context {S A : Type}.
Variable body : A -> M S unit.

Lemma for_each_cons_ok (x : A) (xs : list A) (s s' : S) :
  body x s = (Ok tt, s') -> for_each body (x :: xs) s = for_each body xs s'.
Proof. intros H. simpl. unfold bind. now rewrite H. Qed.

End ForEach.

Section Chains.
Context {S A : Type}.

Lemma chain_impl (R R' : A -> S -> S -> Prop) :
  (forall x s s', R x s s' -> R' x s s') ->
  forall xs s s', chain R xs s s' -> chain R' xs s s'.
Proof.
  intros HR xs s s' H. induction H; econstructor; eauto.
Qed.

(** A loop whose body makes an [R]-step from every state of the invariant
    runs to its end along a chain of [R]-steps. *)
Lemma for_each_chain (body : A -> M S unit) (I : S -> Prop)
    (R : A -> S -> S -> Prop) :
  (forall x s, I s -> exists s', body x s = (Ok tt, s') /\ I s' /\ R x s s') ->
  forall xs s, I s ->
    exists s', for_each body xs s = (Ok tt, s') /\ I s' /\ chain R xs s s'.
Proof.
  intros Hbody xs. induction xs as [|x xs IH]; intros s HI.
  - exists s. repeat split; [assumption | constructor].
  - destruct (Hbody x s HI) as [s1 [E1 [I1 R1]]].
    destruct (IH s1 I1) as [s2 [E2 [I2 R2]]].
    exists s2. rewrite (@for_each_cons_ok _ _ body x xs s s1 E1).
    repeat split; try assumption. econstructor; eassumption.
Qed.
End Chains.

(** ** One update *)

Ltac unfold_monad :=
  unfold on_history, bind, getattr, modify, gets, ret, raise in *.

Section OneUpdate.
Variables P F : Type.
Variable fc : func_caller F.

(** The child's update of a ready state returns, and leaves the state that
    the four descriptions give. *)
Lemma exd_child_update_history_step (c : cls) (q : qinfo P F) (s : state P F) :
  ready fc s ->
  exists s',
    _exd_child_update_history fc c q s = (Ok tt, s') /\
    ready fc s' /\
    improved_by fc q s s' /\
    snapshot_appended s s' /\
    fidelity_counted fc q s s' /\
    same_rest s s' /\
    History.query_vals (history s') = History.query_vals (history s) /\
    History.query_true_vals (history s') = History.query_true_vals (history s).
Proof.
  intros Hready.
  unfold _exd_child_update_history, _opt_method_update_history,
    _update_opt_point_and_val, ready, improved_by, snapshot_appended,
    fidelity_counted, same_rest, eligible, at_fidel_to_opt in *.
  unfold_monad.
  destruct (is_mf fc) eqn:Emf.
  - destruct (Hready eq_refl) as [[n Hn] [flags Hflags]].
    rewrite Hflags. cbn. rewrite Hn. cbn.
    destruct (is_fidel_to_opt fc (eval_fidel_of fc q)); cbn.
    + destruct (py_gt (val q) (curr_opt_val s)) eqn:E1; cbn;
        destruct (py_gt (true_val q) (curr_true_opt_val s)) eqn:E2; cbn;
        destruct c; cbn; rewrite ?E1, ?E2;
        (eexists; split; [reflexivity|]); cbn; rewrite ?E1, ?E2;
        repeat split; eauto; try discriminate;
        exists n, flags; repeat split; reflexivity.
    + destruct c; cbn; (eexists; split; [reflexivity|]); cbn;
        repeat split; eauto;
        exists n, flags; repeat split; reflexivity.
  - destruct (py_gt (val q) (curr_opt_val s)) eqn:E1; cbn;
      destruct (py_gt (true_val q) (curr_true_opt_val s)) eqn:E2; cbn;
      destruct c; cbn; rewrite ?E1, ?E2;
      (eexists; split; [reflexivity|]); cbn; rewrite ?E1, ?E2;
      repeat split; eauto; try discriminate.
Qed.
End OneUpdate.

(** ** Set-up *)

Section SetUp.
Variables P F : Type.
Variable fc : func_caller F.

Ltac run_set_up c :=
  unfold after_set_up, exec, _exd_child_set_up, _blackbox_optimise_set_up,
    _opt_method_set_up;
  unfold_monad; destruct c, (is_mf fc); reflexivity.

(** [OptInitialiser] completes its set-up; on [BlackboxOptimiser] itself
    the method hook is the abstract one and raises, after every attribute
    has been initialised. *)
Lemma set_up_result (c : cls) (s0 : state P F) :
  result (_exd_child_set_up fc c) s0 =
  match c with
  | OptInitialiser => Ok tt
  | BlackboxOptimiser =>
      Raised (NotImplementedError "Implement in Optimisation Method class.")
  end.
Proof.
  unfold result, _exd_child_set_up, _blackbox_optimise_set_up,
    _opt_method_set_up.
  unfold_monad. destruct c, (is_mf fc); reflexivity.
Qed.

Lemma set_up_curr_opt_val (c : cls) (s0 : state P F) :
  curr_opt_val (after_set_up fc c s0) = neg_inf.
Proof. run_set_up c. Qed.

Lemma set_up_curr_opt_point (c : cls) (s0 : state P F) :
  curr_opt_point (after_set_up fc c s0) = None.
Proof. run_set_up c. Qed.

Lemma set_up_curr_true_opt_val (c : cls) (s0 : state P F) :
  curr_true_opt_val (after_set_up fc c s0) = neg_inf.
Proof. run_set_up c. Qed.

Lemma set_up_curr_true_opt_point (c : cls) (s0 : state P F) :
  curr_true_opt_point (after_set_up fc c s0) = None.
Proof. run_set_up c. Qed.

Lemma set_up_num_fidel_to_opt_calls (c : cls) (s0 : state P F) :
  num_fidel_to_opt_calls (after_set_up fc c s0) =
  if is_mf fc then Some 0 else num_fidel_to_opt_calls s0.
Proof. run_set_up c. Qed.

Lemma set_up_query_at_fidel_to_opts (c : cls) (s0 : state P F) :
  History.query_at_fidel_to_opts (history (after_set_up fc c s0)) =
  if is_mf fc then Some []
  else History.query_at_fidel_to_opts (history s0).
Proof. run_set_up c. Qed.

Lemma set_up_history (c : cls) (s0 : state P F) :
  let h := history (after_set_up fc c s0) in
  History.query_vals h = [] /\ History.query_true_vals h = [] /\
  History.curr_opt_vals h = [] /\ History.curr_opt_points h = [] /\
  History.curr_true_opt_vals h = [] /\ History.curr_true_opt_points h = [] /\
  History.prev_eval_points h = [] /\ History.prev_eval_vals h = [].
Proof.
  unfold after_set_up, exec, _exd_child_set_up, _blackbox_optimise_set_up,
    _opt_method_set_up.
  unfold_monad. destruct c, (is_mf fc); cbn; repeat split.
Qed.

Lemma set_up_prev_evals (c : cls) (s0 : state P F) :
  let s := after_set_up fc c s0 in
  prev_eval_points s = prev_eval_points s0 /\
  prev_eval_fidels s = prev_eval_fidels s0 /\
  prev_eval_vals s = [] /\ prev_eval_true_vals s = [].
Proof.
  unfold after_set_up, exec, _exd_child_set_up, _blackbox_optimise_set_up,
    _opt_method_set_up.
  unfold_monad. destruct c, (is_mf fc); cbn; repeat split.
Qed.

Lemma set_up_ready (c : cls) (s0 : state P F) : ready fc (after_set_up fc c s0).
Proof.
  intros Hmf.
  rewrite set_up_num_fidel_to_opt_calls, set_up_query_at_fidel_to_opts, Hmf.
  split; eauto.
Qed.

Lemma set_up_registered (c : cls) (s0 : state P F) :
  registered (after_set_up fc c s0).
Proof.
  unfold registered, after_set_up, exec, _exd_child_set_up,
    _blackbox_optimise_set_up, _opt_method_set_up.
  unfold_monad. destruct c, (is_mf fc); cbn; split; reflexivity.
Qed.
End SetUp.

(** ** One update as the driver makes it *)

Section OneDriverUpdate.
Variables P F : Type.
Variable fc : func_caller F.

Lemma copy_from_qinfo_to_history_step (q : qinfo P F) (s : state P F) :
  registered s ->
  copy_from_qinfo_to_history q s =
  (Ok tt,
   set_history
     (History.set_query_true_vals
        (History.query_true_vals (history s) ++ [true_val q])%list
        (History.set_query_vals
           (History.query_vals (history s) ++ [val q])%list (history s))) s).
Proof.
  intros [Hv Ht]. unfold copy_from_qinfo_to_history, for_each, history_append.
  unfold_monad. rewrite Hv. cbn. rewrite Ht. cbn. reflexivity.
Qed.

Lemma update_history_step (c : cls) (q : qinfo P F) (s : state P F) :
  ready fc s /\ registered s ->
  exists s',
    _update_history fc c q s = (Ok tt, s') /\
    (ready fc s' /\ registered s') /\
    improved_by fc q s s' /\
    snapshot_appended s s' /\
    fidelity_counted fc q s s' /\
    same_rest s s' /\
    query_appended q s s'.
Proof.
  intros [Hready Hreg]. unfold _update_history.
  unfold bind at 1. rewrite (copy_from_qinfo_to_history_step q Hreg).
  set (s1 := set_history _ s).
  assert (Hready1 : ready fc s1) by exact Hready.
  destruct (exd_child_update_history_step c q Hready1)
    as [s' [E [R' [Hi [Hs [Hf [Hr [Hq Hqt]]]]]]]].
  exists s'. split; [exact E|].
  split; [split; [exact R'|]|].
  - destruct Hr as [Hr _]. unfold registered. now rewrite Hr.
  - split; [exact Hi|]. split; [exact Hs|]. split; [exact Hf|].
    split; [exact Hr|]. split; [rewrite Hq | rewrite Hqt]; reflexivity.
Qed.
End OneDriverUpdate.

(** ** Runs of updates *)

Section Runs.
Variables P F : Type.
Variable fc : func_caller F.

Lemma updates_chain (c : cls) (qs : list (qinfo P F)) (s : state P F) :
  ready fc s ->
  exists s', updates fc c qs s = (Ok tt, s') /\ ready fc s' /\
             chain (child_step fc) qs s s'.
Proof.
  revert s. apply (@for_each_chain _ _ _ (ready fc)). intros q s1 H1.
  destruct (exd_child_update_history_step c q H1)
    as [s' [E [R' [Hi [Hs [Hf [Hr [Hq Hqt]]]]]]]].
  exists s'. unfold child_step, query_kept. tauto.
Qed.

Lemma driver_updates_chain (c : cls) (qs : list (qinfo P F)) (s : state P F) :
  ready fc s /\ registered s ->
  exists s', driver_updates fc c qs s = (Ok tt, s') /\
             (ready fc s' /\ registered s') /\
             chain (driver_step fc) qs s s'.
Proof.
  revert s.
  apply (@for_each_chain _ _ _ (fun s => ready fc s /\ registered s)).
  intros q s1 H1.
  destruct (update_history_step c q H1)
    as [s' [E [R' [Hi [Hs [Hf [Hr Hq]]]]]]].
  exists s'. unfold driver_step. tauto.
Qed.

(** *** The optimum along a run *)

Lemma chain_running_max (qs : list (qinfo P F)) (s s' : state P F) :
  chain (improved_by fc) qs s s' ->
  curr_opt_val s' =
    running_max (curr_opt_val s) (map (@val P F) (filter (eligible fc) qs)) /\
  curr_true_opt_val s' =
    running_max (curr_true_opt_val s)
      (map (@true_val P F) (filter (eligible fc) qs)).
Proof.
  intros H. induction H as [s|q qs s s1 s2 [Hv [_ [Ht _]]] _ [IHv IHt]].
  - split; reflexivity.
  - rewrite IHv, IHt, Hv, Ht. simpl.
    destruct (eligible fc q); simpl; split; reflexivity.
Qed.

(** *** The sequences along a run *)

Lemma chain_snapshot_lengths (qs : list (qinfo P F)) (s s' : state P F) :
  chain (fun _ => @snapshot_appended P F) qs s s' ->
  let h := history s in
  let h' := history s' in
  let n := List.length qs in
  List.length (History.curr_opt_vals h') =
    (List.length (History.curr_opt_vals h) + n)%nat /\
  List.length (History.curr_opt_points h') =
    (List.length (History.curr_opt_points h) + n)%nat /\
  List.length (History.curr_true_opt_vals h') =
    (List.length (History.curr_true_opt_vals h) + n)%nat /\
  List.length (History.curr_true_opt_points h') =
    (List.length (History.curr_true_opt_points h) + n)%nat.
Proof.
  intros H. induction H as [s|q qs s s1 s2 [H1 [H2 [H3 H4]]] _ IH]; cbn zeta.
  - simpl. repeat split; lia.
  - cbn zeta in IH. destruct IH as [I1 [I2 [I3 I4]]].
    rewrite I1, I2, I3, I4, H1, H2, H3, H4, !length_app. simpl.
    repeat split; lia.
Qed.

Lemma chain_query_appended (qs : list (qinfo P F)) (s s' : state P F) :
  chain (@query_appended P F) qs s s' ->
  History.query_vals (history s') =
    (History.query_vals (history s) ++ map (@val P F) qs)%list /\
  History.query_true_vals (history s') =
    (History.query_true_vals (history s) ++ map (@true_val P F) qs)%list.
Proof.
  intros H. induction H as [s|q qs s s1 s2 [H1 H2] _ [I1 I2]].
  - simpl. rewrite !app_nil_r. split; reflexivity.
  - rewrite I1, I2, H1, H2, <- !app_assoc. split; reflexivity.
Qed.

(** *** The fidelity book-keeping along a run *)

Lemma chain_fidelity_counted_mf (qs : list (qinfo P F)) (s s' : state P F)
    (n : Z) (flags : list bool) :
  is_mf fc = true ->
  chain (fidelity_counted fc) qs s s' ->
  num_fidel_to_opt_calls s = Some n ->
  History.query_at_fidel_to_opts (history s) = Some flags ->
  num_fidel_to_opt_calls s' = Some (n + count_at_fidel_to_opt fc qs) /\
  History.query_at_fidel_to_opts (history s') =
    Some (flags ++ map (at_fidel_to_opt fc) qs)%list.
Proof.
  intros Hmf H. revert n flags.
  induction H as [s|q qs s s1 s2 H1 _ IH]; intros n flags Hn Hflags.
  - unfold count_at_fidel_to_opt. simpl. rewrite Z.add_0_r, app_nil_r.
    now split.
  - unfold fidelity_counted in H1. rewrite Hmf in H1.
    destruct H1 as [n0 [flags0 [E1 [E2 [E3 E4]]]]].
    rewrite Hn in E1. rewrite Hflags in E2.
    injection E1 as <-. injection E2 as <-.
    destruct (IH _ _ E3 E4) as [I1 I2]. rewrite I1, I2. split.
    + f_equal. unfold count_at_fidel_to_opt. simpl.
      destruct (at_fidel_to_opt fc q); simpl List.length; simpl Z.b2z; lia.
    + now rewrite <- app_assoc.
Qed.

End Runs.

(** ** The running maximum *)

Lemma py_le_neg_inf (x : float) : py_le x neg_inf = true -> x = neg_inf.
Proof.
  destruct x as [s|[]| |[] m e]; simpl; try discriminate; reflexivity.
Qed.

Lemma running_max_snoc (m v : float) (vs : list float) :
  running_max m (vs ++ [v]) =
  if py_gt v (running_max m vs) then v else running_max m vs.
Proof. unfold running_max. now rewrite fold_left_app. Qed.

Lemma running_max_bounds (m : float) (vs : list float) :
  is_nan m = false ->
  forallb (fun v => negb (is_nan v)) vs = true ->
  let r := running_max m vs in
  is_nan r = false /\ In r (m :: vs) /\
  forall x, In x (m :: vs) -> py_le x r = true.
Proof.
  intros Hm. induction vs as [|v vs IH] using rev_ind; intros Hvs r.
  - subst r. simpl. repeat split; auto.
    intros x [<-|[]]. now apply py_le_refl.
  - rewrite forallb_app in Hvs. apply andb_prop in Hvs as [Hvs Hv].
    simpl in Hv. rewrite andb_true_r in Hv. apply negb_true_iff in Hv.
    destruct (IH Hvs) as [Hr [Hin Hub]].
    subst r. rewrite running_max_snoc.
    destruct (py_gt v (running_max m vs)) eqn:E.
    + split; [exact Hv|]. split.
      * right. apply in_or_app. right. now left.
      * intros x [<-|Hx].
        -- eapply py_le_gt_trans; [apply Hub; now left | exact E].
        -- apply in_app_or in Hx as [Hx|[<-|[]]].
           ++ eapply py_le_gt_trans; [apply Hub; now right | exact E].
           ++ now apply py_le_refl.
    + split; [exact Hr|]. split.
      * destruct Hin as [Hin|Hin]; [now left|].
        right. apply in_or_app. now left.
      * intros x [<-|Hx].
        -- apply Hub. now left.
        -- apply in_app_or in Hx as [Hx|[<-|[]]].
           ++ apply Hub. now right.
           ++ now apply py_gt_false_le.
Qed.

(** From the sentinel, the running maximum of a list without NaN that is not
    empty is a greatest element of the list. *)
Lemma running_max_from_neg_inf (vs : list float) :
  vs <> [] ->
  forallb (fun v => negb (is_nan v)) vs = true ->
  is_max_of (running_max neg_inf vs) vs.
Proof.
  intros Hne Hvs.
  destruct (running_max_bounds neg_inf vs eq_refl Hvs) as [_ [Hin Hub]].
  split.
  - destruct Hin as [Hin|Hin]; [|exact Hin].
    destruct vs as [|v vs]; [congruence|].
    assert (Hv : py_le v (running_max neg_inf (v :: vs)) = true)
      by (apply Hub; right; now left).
    rewrite <- Hin in Hv. apply py_le_neg_inf in Hv.
    rewrite <- Hin, <- Hv. now left.
  - intros x Hx. apply Hub. now right.
Qed.

Lemma filter_all {A} (f : A -> bool) (xs : list A) :
  (forall x, f x = true) -> filter f xs = xs.
Proof.
  intros Hf. induction xs as [|x xs IH]; simpl; [reflexivity|].
  now rewrite Hf, IH.
Qed.

Lemma forallb_map {A B} (g : A -> B) (f : B -> bool) (xs : list A) :
  forallb f (map g xs) = forallb (fun x => f (g x)) xs.
Proof. induction xs as [|x xs IH]; simpl; congruence. Qed.

Lemma forallb_impl {A} (f g : A -> bool) (xs : list A) :
  (forall x, f x = true -> g x = true) ->
  forallb f xs = true -> forallb g xs = true.
Proof.
  intros Hfg. induction xs as [|x xs IH]; simpl; [reflexivity|].
  intros H. apply andb_prop in H as [H1 H2]. now rewrite (Hfg _ H1), IH.
Qed.

(** ** Previous evaluations *)

Section Seeding.
Variables P F : Type.
Variable fc : func_caller F.

Lemma per_step_kept_refl (s : state P F) : per_step_kept s s.
Proof. unfold per_step_kept. repeat split. Qed.

Lemma per_step_kept_trans (s1 s2 s3 : state P F) :
  per_step_kept s1 s2 -> per_step_kept s2 s3 -> per_step_kept s1 s3.
Proof.
  unfold per_step_kept.
  intros [A1 [A2 [A3 [A4 [A5 [A6 [A7 [A8 A9]]]]]]]]
         [B1 [B2 [B3 [B4 [B5 [B6 [B7 [B8 B9]]]]]]]].
  repeat split; congruence.
Qed.

(** Whatever a loop's body does that is reflexive and transitive, the
    loop does, whether it runs to its end or stops at an exception. *)
Lemma for_each_preserves {A} (body : A -> M (state P F) unit)
    (Q : state P F -> state P F -> Prop) :
  (forall s, Q s s) ->
  (forall s1 s2 s3, Q s1 s2 -> Q s2 s3 -> Q s1 s3) ->
  (forall x s, Q s (exec (body x) s)) ->
  forall xs s, Q s (exec (for_each body xs) s).
Proof.
  intros Hrefl Htrans Hbody xs.
  induction xs as [|x xs IH]; intros s; [apply Hrefl|].
  unfold exec in *. simpl. unfold bind.
  pose proof (Hbody x s) as Hx.
  destruct (body x s) as [[[]|e] s1]; simpl in *.
  - eapply Htrans; [exact Hx | apply IH].
  - exact Hx.
Qed.

(** One turn of the loop leaves the per-step sequences, the counter and
    the registry alone, also when it raises. *)
Lemma handle_prev_eval_keeps (q : qinfo P F) (s : state P F) :
  per_step_kept s (exec (handle_prev_eval fc q) s).
Proof.
  unfold exec, handle_prev_eval, _update_opt_point_and_val, per_step_kept.
  unfold_monad.
  destruct (is_mf fc); [destruct (prev_eval_fidels s) as [fs|]|]; cbn;
    try (repeat split; reflexivity);
    try destruct (is_fidel_to_opt fc (eval_fidel_of fc q)); cbn;
    try destruct (py_gt (val q) (curr_opt_val s)); cbn;
    try destruct (py_gt (true_val q) (curr_true_opt_val s)); cbn;
    destruct (prev_eval_points s) as [ps|]; cbn; repeat split; reflexivity.
Qed.

(** Handling previous evaluations leaves them alone too, in both classes
    and whether it returns or raises. *)
Lemma handle_prev_evals_keeps (c : cls) (ks : list (qinfo P F))
    (s : state P F) :
  per_step_kept s (exec (_exd_child_handle_prev_evals fc c ks) s).
Proof.
  destruct c; [|apply per_step_kept_refl].
  unfold exec, _exd_child_handle_prev_evals. unfold bind at 1.
  pose proof (@for_each_preserves _ (handle_prev_eval fc) (@per_step_kept P F)
                per_step_kept_refl per_step_kept_trans
                handle_prev_eval_keeps ks s) as H.
  unfold exec in H.
  destruct (for_each (handle_prev_eval fc) ks s) as [[[]|e] s1]; simpl in *;
    [|exact H].
  eapply per_step_kept_trans; [exact H|].
  unfold per_step_kept. unfold_monad.
  destruct (prev_eval_points s1); cbn; repeat split; reflexivity.
Qed.

Lemma per_step_kept_ready (s s' : state P F) :
  per_step_kept s s' -> ready fc s -> ready fc s'.
Proof.
  unfold per_step_kept, ready.
  intros [_ [_ [_ [_ [_ [_ [A7 [A8 _]]]]]]]] H Hmf.
  rewrite A7, A8. now apply H.
Qed.

Lemma per_step_kept_registered (s s' : state P F) :
  per_step_kept s s' -> registered s -> registered s'.
Proof.
  unfold per_step_kept, registered.
  intros [_ [_ [_ [_ [_ [_ [_ [_ A9]]]]]]]] H. now rewrite A9.
Qed.

(** One turn of the loop on a state whose lists exist. *)
Lemma handle_prev_eval_step (q : qinfo P F) (s : state P F) :
  seedable fc s ->
  exists s', handle_prev_eval fc q s = (Ok tt, s') /\ seedable fc s' /\
             seed_step fc q s s'.
Proof.
  intros [[ps Hps] Hfs].
  unfold handle_prev_eval, _update_opt_point_and_val, seedable, seed_step,
    improved_by, per_step_kept, eligible, at_fidel_to_opt in *.
  unfold_monad.
  destruct (is_mf fc) eqn:Emf.
  - destruct (Hfs eq_refl) as [fs Hfs']. rewrite Hfs'. cbn.
    destruct (is_fidel_to_opt fc (eval_fidel_of fc q)); cbn.
    + destruct (py_gt (val q) (curr_opt_val s)) eqn:E1; cbn;
        destruct (py_gt (true_val q) (curr_true_opt_val s)) eqn:E2; cbn;
        rewrite Hps; cbn;
        (eexists; split; [reflexivity|]); cbn;
        repeat split; eauto.
    + rewrite Hps; cbn. (eexists; split; [reflexivity|]); cbn.
      repeat split; eauto.
  - destruct (py_gt (val q) (curr_opt_val s)) eqn:E1; cbn;
      destruct (py_gt (true_val q) (curr_true_opt_val s)) eqn:E2; cbn;
      rewrite Hps; cbn;
      (eexists; split; [reflexivity|]); cbn;
      repeat split; eauto; discriminate.
Qed.

Lemma handle_prev_eval_chain (ks : list (qinfo P F)) (s : state P F) :
  seedable fc s ->
  exists s', for_each (handle_prev_eval fc) ks s = (Ok tt, s') /\
             seedable fc s' /\ chain (seed_step fc) ks s s'.
Proof.
  revert s. apply (@for_each_chain _ _ _ (seedable fc)).
  intros q s Hs. exact (handle_prev_eval_step q Hs).
Qed.

Lemma chain_seed_lists (ks : list (qinfo P F)) (s s' : state P F)
    (ps : list P) :
  chain (seed_step fc) ks s s' ->
  prev_eval_points s = Some ps ->
  prev_eval_points s' = Some (ps ++ map (@point P F) ks)%list /\
  prev_eval_vals s' = (prev_eval_vals s ++ map (@val P F) ks)%list /\
  per_step_kept s s' /\
  History.prev_eval_points (history s') = History.prev_eval_points (history s) /\
  History.prev_eval_vals (history s') = History.prev_eval_vals (history s).
Proof.
  intros H. revert ps.
  induction H as [s|q ks s s1 s2 H1 _ IH]; intros ps Hps.
  - simpl. rewrite !app_nil_r. repeat split; try assumption; reflexivity.
  - destruct H1 as [_ [Hk [[ps0 [E0 E1]] [Hv [Hhp Hhv]]]]].
    rewrite Hps in E0. injection E0 as <-.
    destruct (IH _ E1) as [I1 [I2 [I3 [I4 I5]]]].
    rewrite I1, I2, Hv, <- !app_assoc. simpl.
    split; [reflexivity|]. split; [reflexivity|].
    split; [eapply per_step_kept_trans; eassumption|].
    split; congruence.
Qed.
End Seeding.

(** ** Scenarios of the specification, run on the code *)

(** Values [3, 7, 5, 9] with true values [3, 6, 5, 9.5], without
    fidelities. *)
Example scenario_single_fidelity :
  let last := {| point := 3%nat; val := float_of_Z 9;
                 true_val := float_of_dyadic 19 (-1); fidel := None |} in
  let qs := [record 0 3 3 None; record 1 7 6 None; record 2 5 5 None; last] in
  let s := exec (updates sf_caller BlackboxOptimiser qs)
                (after_set_up sf_caller BlackboxOptimiser blank) in
  curr_opt_val s = float_of_Z 9 /\
  curr_true_opt_val s = float_of_dyadic 19 (-1) /\
  History.curr_opt_vals (history s) =
    [float_of_Z 3; float_of_Z 7; float_of_Z 7; float_of_Z 9] /\
  format_0_5f (curr_true_opt_val s) = "9.50000".
Proof. vm_compute. repeat split. Qed.

(** [(10, low)], [(4, high)], [(8, high)] with ["high"] to optimise. *)
Example scenario_multi_fidelity :
  let qs := [record 0 10 10 (Some "low"); record 1 4 4 (Some "high");
             record 2 8 8 (Some "high")] in
  let s := exec (updates mf_caller BlackboxOptimiser qs)
                (after_set_up mf_caller BlackboxOptimiser blank) in
  curr_opt_val s = float_of_Z 8 /\ curr_opt_point s = Some 2%nat /\
  num_fidel_to_opt_calls s = Some 2.
Proof. vm_compute. repeat split. Qed.

(** ** The claims *)

(** C1.  Without fidelities, after the updates of any non-empty sequence of
    records whose values are not NaN, started from set-up, [curr_opt_val] is
    a greatest element of the [val]s seen and [curr_true_opt_val] a greatest
    element of the [true_val]s seen (the updates all return).  The two
    comparisons are independent: there is a run after which one record
    replaces the observed optimum and leaves the true one alone, and a run
    after which one record does the converse. *)
Theorem single_fidelity_optimum_is_maximum :
  (forall (P F : Type) (fc : func_caller F) (c : cls) (s0 : state P F)
          (qs : list (qinfo P F)),
     is_mf fc = false ->
     qs <> [] ->
     forallb (@real_valued P F) qs = true ->
     exists s,
       updates fc c qs (after_set_up fc c s0) = (Ok tt, s) /\
       is_max_of (curr_opt_val s) (map (@val P F) qs) /\
       is_max_of (curr_true_opt_val s) (map (@true_val P F) qs)) /\
  (exists (qs : list (qinfo nat string)) (q : qinfo nat string),
     let s := exec (updates sf_caller BlackboxOptimiser qs)
                   (after_set_up sf_caller BlackboxOptimiser blank) in
     let s' := exec (_exd_child_update_history sf_caller BlackboxOptimiser q) s in
     curr_opt_val s' = val q /\ curr_opt_val s' <> curr_opt_val s /\
     curr_opt_point s' = Some (point q) /\
     curr_true_opt_val s' = curr_true_opt_val s /\
     curr_true_opt_val s' <> true_val q /\
     curr_true_opt_point s' = curr_true_opt_point s /\
     curr_true_opt_point s' <> Some (point q)) /\
  (exists (qs : list (qinfo nat string)) (q : qinfo nat string),
     let s := exec (updates sf_caller BlackboxOptimiser qs)
                   (after_set_up sf_caller BlackboxOptimiser blank) in
     let s' := exec (_exd_child_update_history sf_caller BlackboxOptimiser q) s in
     curr_true_opt_val s' = true_val q /\
     curr_true_opt_val s' <> curr_true_opt_val s /\
     curr_true_opt_point s' = Some (point q) /\
     curr_opt_val s' = curr_opt_val s /\
     curr_opt_val s' <> val q /\
     curr_opt_point s' = curr_opt_point s /\
     curr_opt_point s' <> Some (point q)).
Proof.
  split; [|split].
  - intros P F fc c s0 qs Hsf Hne Hreal.
    destruct (updates_chain c qs (set_up_ready fc c s0)) as [s [E [_ Hch]]].
    exists s. split; [exact E|].
    assert (Hi : chain (improved_by fc) qs (after_set_up fc c s0) s).
    { eapply chain_impl; [|exact Hch]. intros q s1 s2 H. apply H. }
    destruct (chain_running_max Hi) as [Hv Ht].
    rewrite set_up_curr_opt_val in Hv. rewrite set_up_curr_true_opt_val in Ht.
    rewrite filter_all in Hv, Ht
      by (intros q; unfold eligible; now rewrite Hsf).
    rewrite Hv, Ht. split.
    + apply running_max_from_neg_inf.
      * destruct qs; [congruence | discriminate].
      * rewrite forallb_map. eapply forallb_impl; [|exact Hreal].
        unfold real_valued. intros q H. now apply andb_prop in H.
    + apply running_max_from_neg_inf.
      * destruct qs; [congruence | discriminate].
      * rewrite forallb_map. eapply forallb_impl; [|exact Hreal].
        unfold real_valued. intros q H. now apply andb_prop in H.
  - exists [record 0 1 5 None], (record 1 2 4 None).
    vm_compute. repeat split; discriminate.
  - exists [record 0 5 1 None], (record 1 4 2 None).
    vm_compute. repeat split; discriminate.
Qed.

Lemma single_fidelity_optimum_is_maximum_witness :
  let qs := [record 0 6 6 None; record 1 14 12 None; record 2 10 10 None] in
  exists s,
    updates sf_caller OptInitialiser qs
      (after_set_up sf_caller OptInitialiser blank) = (Ok tt, s) /\
    is_max_of (curr_opt_val s) (map (@val nat string) qs) /\
    is_max_of (curr_true_opt_val s) (map (@true_val nat string) qs).
Proof.
  apply (proj1 single_fidelity_optimum_is_maximum nat string sf_caller
           OptInitialiser blank).
  - reflexivity.
  - discriminate.
  - reflexivity.
Defined.

Lemma not_eligible_keeps_optimum {P F} (fc : func_caller F)
    (q : qinfo P F) (s s' : state P F) :
  eligible fc q = false -> improved_by fc q s s' -> optimum s' = optimum s.
Proof.
  unfold improved_by, optimum. intros -> [-> [-> [-> ->]]]. reflexivity.
Qed.

(** C2.  In multi-fidelity mode, after set-up and any updates, an update for
    a record that is not at the fidelity to optimise returns and leaves the
    four optimum attributes as they were; the child's update appends one
    entry to each of its five sequences -- [False] to
    [query_at_fidel_to_opts], the unchanged optimum to the four snapshot
    sequences -- and counts nothing; the update as the driver makes it also
    appends the record's two values to [query_vals] and [query_true_vals].
    Hence an update that changes the optimum is one for a record at the
    fidelity to optimise. *)
Theorem off_fidelity_update_keeps_optimum :
  forall (P F : Type) (fc : func_caller F) (c : cls) (s0 : state P F)
         (qs : list (qinfo P F)) (q : qinfo P F),
    is_mf fc = true ->
    exists s,
      driver_updates fc c qs (after_set_up fc c s0) = (Ok tt, s) /\
      (at_fidel_to_opt fc q = false ->
       (exists s',
          _exd_child_update_history fc c q s = (Ok tt, s') /\
          optimum s' = optimum s /\
          History.curr_opt_vals (history s') =
            (History.curr_opt_vals (history s) ++ [curr_opt_val s])%list /\
          History.curr_opt_points (history s') =
            (History.curr_opt_points (history s) ++ [curr_opt_point s])%list /\
          History.curr_true_opt_vals (history s') =
            (History.curr_true_opt_vals (history s) ++ [curr_true_opt_val s])%list /\
          History.curr_true_opt_points (history s') =
            (History.curr_true_opt_points (history s)
               ++ [curr_true_opt_point s])%list /\
          (exists flags,
             History.query_at_fidel_to_opts (history s) = Some flags /\
             History.query_at_fidel_to_opts (history s') =
               Some (flags ++ [false])%list) /\
          num_fidel_to_opt_calls s' = num_fidel_to_opt_calls s) /\
       (exists s',
          _update_history fc c q s = (Ok tt, s') /\
          optimum s' = optimum s /\
          History.query_vals (history s') =
            (History.query_vals (history s) ++ [val q])%list /\
          History.query_true_vals (history s') =
            (History.query_true_vals (history s) ++ [true_val q])%list /\
          History.curr_opt_vals (history s') =
            (History.curr_opt_vals (history s) ++ [curr_opt_val s])%list /\
          History.curr_opt_points (history s') =
            (History.curr_opt_points (history s) ++ [curr_opt_point s])%list /\
          History.curr_true_opt_vals (history s') =
            (History.curr_true_opt_vals (history s) ++ [curr_true_opt_val s])%list /\
          History.curr_true_opt_points (history s') =
            (History.curr_true_opt_points (history s)
               ++ [curr_true_opt_point s])%list /\
          (exists flags,
             History.query_at_fidel_to_opts (history s) = Some flags /\
             History.query_at_fidel_to_opts (history s') =
               Some (flags ++ [false])%list))) /\
      (forall s',
         _exd_child_update_history fc c q s = (Ok tt, s') ->
         optimum s' <> optimum s -> at_fidel_to_opt fc q = true).
Proof.
  intros P F fc c s0 qs q Hmf.
  destruct (driver_updates_chain c qs
              (conj (set_up_ready fc c s0) (set_up_registered fc c s0)))
    as [s [E [[Hready Hreg] _]]].
  exists s. split; [exact E|].
  assert (Hoff : at_fidel_to_opt fc q = false -> eligible fc q = false)
    by (unfold eligible; now rewrite Hmf).
  destruct (exd_child_update_history_step c q Hready)
    as [s1 [E1 [_ [Hi1 [Hs1 [Hf1 _]]]]]].
  destruct (update_history_step c q (conj Hready Hreg))
    as [s2 [E2 [_ [Hi2 [Hs2 [Hf2 [_ [Hq2 Hqt2]]]]]]]].
  unfold fidelity_counted in Hf1, Hf2. rewrite Hmf in Hf1, Hf2.
  destruct Hf1 as [n1 [fl1 [Hn1 [Hfl1 [Hn1' Hfl1']]]]].
  destruct Hf2 as [n2 [fl2 [Hn2 [Hfl2 [Hn2' Hfl2']]]]].
  split.
  - intros Hq. pose proof (Hoff Hq) as Hel.
    pose proof (not_eligible_keeps_optimum Hel Hi1) as Ho1.
    pose proof (not_eligible_keeps_optimum Hel Hi2) as Ho2.
    rewrite Hq in *. simpl in Hn1'. rewrite Z.add_0_r in Hn1'.
    destruct Hs1 as [A1 [A2 [A3 A4]]]. destruct Hs2 as [B1 [B2 [B3 B4]]].
    unfold optimum in Ho1, Ho2.
    injection Ho1 as O1 O2 O3 O4. injection Ho2 as O5 O6 O7 O8.
    split.
    + exists s1. split; [exact E1|].
      unfold optimum. rewrite A1, A2, A3, A4, O1, O2, O3, O4.
      repeat split; try reflexivity; [eauto | congruence].
    + exists s2. split; [exact E2|].
      unfold optimum. rewrite B1, B2, B3, B4, O5, O6, O7, O8, Hq2, Hqt2.
      repeat split; try reflexivity. eauto.
  - intros s' E' Hchange. rewrite E1 in E'. injection E' as <-.
    destruct (at_fidel_to_opt fc q) eqn:Hq; [reflexivity|].
    exfalso. apply Hchange.
    exact (not_eligible_keeps_optimum (Hoff eq_refl) Hi1).
Qed.

Lemma off_fidelity_update_keeps_optimum_witness :
  let q := record 2 10 10 (Some "low") in
  exists s,
    driver_updates mf_caller OptInitialiser [record 0 4 4 (Some "high")]
      (after_set_up mf_caller OptInitialiser blank) = (Ok tt, s) /\
    (exists s',
       _update_history mf_caller OptInitialiser q s = (Ok tt, s') /\
       optimum s' = optimum s /\
       History.query_vals (history s') =
         (History.query_vals (history s) ++ [val q])%list).
Proof.
  intros q.
  destruct (off_fidelity_update_keeps_optimum mf_caller OptInitialiser blank
              [record 0 4 4 (Some "high")] q eq_refl)
    as [s [E [Hoff _]]].
  destruct (Hoff eq_refl) as [_ [s' [E' [Ho [Hq _]]]]].
  exists s. split; [exact E|]. exists s'. repeat split; assumption.
Defined.

(** C6.  After set-up, the handling of any previous evaluations (whatever
    its outcome) and then any number of updates as the driver makes them,
    the updates have all returned and every per-step sequence of the history
    -- the seventh, [query_at_fidel_to_opts], in multi-fidelity mode -- has
    as many entries as there were updates. *)
Theorem per_step_sequences_have_one_entry_per_update :
  forall (P F : Type) (fc : func_caller F) (c : cls) (s0 : state P F)
         (ks qs : list (qinfo P F)),
    let seeded := exec (_exd_child_handle_prev_evals fc c ks)
                       (after_set_up fc c s0) in
    exists s,
      driver_updates fc c qs seeded = (Ok tt, s) /\
      let h := history s in
      let n := List.length qs in
      List.length (History.query_vals h) = n /\
      List.length (History.query_true_vals h) = n /\
      List.length (History.curr_opt_vals h) = n /\
      List.length (History.curr_opt_points h) = n /\
      List.length (History.curr_true_opt_vals h) = n /\
      List.length (History.curr_true_opt_points h) = n /\
      (is_mf fc = true ->
       exists flags, History.query_at_fidel_to_opts h = Some flags /\
                     List.length flags = n).
Proof.
  intros P F fc c s0 ks qs seeded.
  pose proof (handle_prev_evals_keeps fc c ks (after_set_up fc c s0)) as Hk.
  fold seeded in Hk.
  pose proof (per_step_kept_ready Hk (set_up_ready fc c s0)) as Hready.
  pose proof (per_step_kept_registered Hk (set_up_registered fc c s0)) as Hreg.
  destruct (driver_updates_chain c qs (conj Hready Hreg)) as [s [E [_ Hch]]].
  exists s. split; [exact E|]. cbn zeta.
  assert (Hsnap : chain (fun _ => @snapshot_appended P F) qs seeded s).
  { eapply chain_impl; [|exact Hch]. intros q s1 s2 H. apply H. }
  assert (Hqa : chain (@query_appended P F) qs seeded s).
  { eapply chain_impl; [|exact Hch]. intros q s1 s2 H. apply H. }
  assert (Hfc : chain (fidelity_counted fc) qs seeded s).
  { eapply chain_impl; [|exact Hch]. intros q s1 s2 H. apply H. }
  destruct (chain_snapshot_lengths Hsnap) as [L1 [L2 [L3 L4]]].
  destruct (chain_query_appended Hqa) as [Q1 Q2].
  destruct Hk as [K1 [K2 [K3 [K4 [K5 [K6 [K7 [K8 _]]]]]]]].
  destruct (set_up_history fc c s0) as [S1 [S2 [S3 [S4 [S5 [S6 _]]]]]].
  rewrite L1, L2, L3, L4, Q1, Q2, K1, K2, K3, K4, K5, K6,
    S1, S2, S3, S4, S5, S6.
  simpl. rewrite !length_map.
  repeat split; try reflexivity.
  intros Hmf.
  destruct (@chain_fidelity_counted_mf P F fc qs seeded s 0 [] Hmf Hfc)
    as [_ Hflags].
  - rewrite K8, set_up_num_fidel_to_opt_calls, Hmf. reflexivity.
  - rewrite K7, set_up_query_at_fidel_to_opts, Hmf. reflexivity.
  - exists (map (at_fidel_to_opt fc) qs). split; [exact Hflags|].
    now rewrite length_map.
Qed.

(** C7.  In multi-fidelity mode, after set-up and the updates of [N]
    records, which all return, [num_fidel_to_opt_calls] is the number of
    those records whose fidelity -- the caller's fidelity to optimise for a
    record that carries none -- the caller takes for the fidelity to
    optimise.  When the caller takes its own fidelity to optimise for it,
    that number is the number of records tagged with such a fidelity plus
    the number of untagged records. *)
Theorem num_fidel_to_opt_calls_counts :
  forall (P F : Type) (fc : func_caller F) (c : cls) (s0 : state P F)
         (qs : list (qinfo P F)),
    is_mf fc = true ->
    exists s,
      updates fc c qs (after_set_up fc c s0) = (Ok tt, s) /\
      num_fidel_to_opt_calls s = Some (count_at_fidel_to_opt fc qs) /\
      (is_fidel_to_opt fc (fidel_to_opt fc) = true ->
       count_at_fidel_to_opt fc qs =
       count_tagged_at_fidel_to_opt fc qs + count_untagged qs).
Proof.
  intros P F fc c s0 qs Hmf.
  destruct (updates_chain c qs (set_up_ready fc c s0)) as [s [E [_ Hch]]].
  exists s. split; [exact E|]. split.
  - assert (Hfc : chain (fidelity_counted fc) qs (after_set_up fc c s0) s).
    { eapply chain_impl; [|exact Hch]. intros q s1 s2 H. apply H. }
    destruct (@chain_fidelity_counted_mf P F fc qs _ s 0 [] Hmf Hfc)
      as [Hn _].
    + rewrite set_up_num_fidel_to_opt_calls, Hmf. reflexivity.
    + rewrite set_up_query_at_fidel_to_opts, Hmf. reflexivity.
    + exact Hn.
  - intros Hown. clear E Hch.
    unfold count_at_fidel_to_opt, count_tagged_at_fidel_to_opt, count_untagged,
      at_fidel_to_opt, eval_fidel_of.
    induction qs as [|q qs IH]; [reflexivity|].
    simpl. destruct (fidel q) as [f|].
    + destruct (is_fidel_to_opt fc f); simpl List.length; lia.
    + rewrite Hown. simpl List.length. lia.
Qed.

Lemma num_fidel_to_opt_calls_counts_witness :
  let qs := [record 0 10 10 (Some "low"); record 1 4 4 None;
             record 2 8 8 (Some "high")] in
  exists s,
    updates mf_caller BlackboxOptimiser qs
      (after_set_up mf_caller BlackboxOptimiser blank) = (Ok tt, s) /\
    num_fidel_to_opt_calls s = Some 2 /\
    count_at_fidel_to_opt mf_caller qs =
    count_tagged_at_fidel_to_opt mf_caller qs + count_untagged qs.
Proof.
  intros qs.
  destruct (num_fidel_to_opt_calls_counts mf_caller BlackboxOptimiser blank
              qs eq_refl) as [s [E [Hn Hc]]].
  exists s. split; [exact E|]. split; [exact Hn|].
  apply Hc. reflexivity.
Defined.

Lemma tie_not_gt (a b : float) :
  a = b \/ py_eq a b = true -> py_gt a b = false.
Proof.
  intros [->|H]; [apply py_gt_irrefl | now apply py_eq_not_gt].
Qed.

(** C9.  After set-up and any updates, a record whose [val] equals
    [curr_opt_val] -- is the same float, or is [==] to it -- replaces neither
    [curr_opt_val] nor [curr_opt_point], and a record whose [true_val] equals
    [curr_true_opt_val] replaces neither [curr_true_opt_val] nor
    [curr_true_opt_point]: in [_update_opt_point_and_val] whatever its
    fidelity argument, and so in the update. *)
Theorem ties_keep_the_incumbent :
  forall (P F : Type) (fc : func_caller F) (c : cls) (s0 : state P F)
         (qs : list (qinfo P F)) (q : qinfo P F),
    exists s,
      updates fc c qs (after_set_up fc c s0) = (Ok tt, s) /\
      (forall b : option bool,
       exists s',
         _update_opt_point_and_val q b s = (Ok tt, s') /\
         (val q = curr_opt_val s \/ py_eq (val q) (curr_opt_val s) = true ->
          curr_opt_val s' = curr_opt_val s /\
          curr_opt_point s' = curr_opt_point s) /\
         (true_val q = curr_true_opt_val s \/
          py_eq (true_val q) (curr_true_opt_val s) = true ->
          curr_true_opt_val s' = curr_true_opt_val s /\
          curr_true_opt_point s' = curr_true_opt_point s)) /\
      (exists s',
         _exd_child_update_history fc c q s = (Ok tt, s') /\
         (val q = curr_opt_val s \/ py_eq (val q) (curr_opt_val s) = true ->
          curr_opt_val s' = curr_opt_val s /\
          curr_opt_point s' = curr_opt_point s) /\
         (true_val q = curr_true_opt_val s \/
          py_eq (true_val q) (curr_true_opt_val s) = true ->
          curr_true_opt_val s' = curr_true_opt_val s /\
          curr_true_opt_point s' = curr_true_opt_point s)).
Proof.
  intros P F fc c s0 qs q.
  destruct (updates_chain c qs (set_up_ready fc c s0)) as [s [E [Hready _]]].
  exists s. split; [exact E|]. split.
  - intros b. unfold _update_opt_point_and_val. unfold_monad.
    destruct b as [[]|]; cbn;
      try (eexists; split; [reflexivity|]; split; intros _; split; reflexivity);
      destruct (py_gt (val q) (curr_opt_val s)) eqn:E1; cbn;
      destruct (py_gt (true_val q) (curr_true_opt_val s)) eqn:E2; cbn;
      (eexists; split; [reflexivity|]); cbn;
      (split; intros Htie; apply tie_not_gt in Htie;
       try congruence; split; reflexivity).
  - destruct (exd_child_update_history_step c q Hready)
      as [s' [E' [_ [[Hv [Hp [Htv Htp]]] _]]]].
    exists s'. split; [exact E'|].
    split; intros Htie; apply tie_not_gt in Htie.
    + rewrite Hv, Hp, Htie, andb_false_r. split; reflexivity.
    + rewrite Htv, Htp, Htie, andb_false_r. split; reflexivity.
Qed.

Lemma ties_keep_the_incumbent_witness :
  let q := record 1 5 7 None in
  exists s,
    updates sf_caller BlackboxOptimiser [record 0 5 5 None]
      (after_set_up sf_caller BlackboxOptimiser blank) = (Ok tt, s) /\
    exists s',
      _exd_child_update_history sf_caller BlackboxOptimiser q s = (Ok tt, s') /\
      curr_opt_val s' = curr_opt_val s /\ curr_opt_point s' = curr_opt_point s.
Proof.
  intros q.
  destruct (ties_keep_the_incumbent sf_caller BlackboxOptimiser blank
              [record 0 5 5 None] q) as [s [E [_ [s' [E' [Htie _]]]]]].
  exists s. split; [exact E|]. exists s'. split; [exact E'|].
  apply Htie. left.
  unfold updates, for_each in E. vm_compute in E.
  injection E as <-. reflexivity.
Defined.

Lemma chain_stays_at_neg_inf {P F} (fc : func_caller F)
    (qs : list (qinfo P F)) (s s' : state P F) :
  chain (improved_by fc) qs s s' ->
  (forall q, In q qs -> eligible fc q = true -> val q = neg_inf) ->
  curr_opt_val s = neg_inf ->
  curr_opt_val s' = neg_inf /\ curr_opt_point s' = curr_opt_point s.
Proof.
  intros H. induction H as [s|q qs s s1 s2 [Hv [Hp _]] _ IH]; intros Hq Hs.
  - now split.
  - assert (Hkeep : eligible fc q && py_gt (val q) (curr_opt_val s) = false).
    { destruct (eligible fc q) eqn:El; [|reflexivity].
      rewrite (Hq q (or_introl eq_refl) El), Hs. apply neg_inf_not_gt. }
    rewrite Hkeep in Hv, Hp. rewrite Hs in Hv.
    destruct IH as [I1 I2].
    + intros q' Hin. apply Hq. now right.
    + exact Hv.
    + split; congruence.
Qed.

(** C10.  When every eligible record of a run of updates after set-up has
    [val] negative infinity, the updates return with [curr_opt_val] still
    negative infinity and [curr_opt_point] still [None], and the final
    return quantities are negative infinity, [None] and the history. *)
Theorem neg_inf_records_never_become_the_incumbent :
  forall (P F : Type) (fc : func_caller F) (c : cls) (s0 : state P F)
         (qs : list (qinfo P F)),
    (forall q, In q qs -> eligible fc q = true -> val q = neg_inf) ->
    exists s,
      updates fc c qs (after_set_up fc c s0) = (Ok tt, s) /\
      curr_opt_val s = neg_inf /\
      curr_opt_point s = None /\
      _get_final_return_quantities s = (Ok (neg_inf, None, history s), s).
Proof.
  intros P F fc c s0 qs Hq.
  destruct (updates_chain c qs (set_up_ready fc c s0)) as [s [E [_ Hch]]].
  exists s. split; [exact E|].
  assert (Hi : chain (improved_by fc) qs (after_set_up fc c s0) s).
  { eapply chain_impl; [|exact Hch]. intros q s1 s2 H. apply H. }
  destruct (chain_stays_at_neg_inf Hi Hq (set_up_curr_opt_val fc c s0))
    as [Hv Hp].
  rewrite set_up_curr_opt_point in Hp.
  split; [exact Hv|]. split; [exact Hp|].
  unfold _get_final_return_quantities. unfold_monad. now rewrite Hv, Hp.
Qed.

Lemma neg_inf_records_never_become_the_incumbent_witness :
  let low := {| point := 0%nat; val := float_of_Z 3; true_val := float_of_Z 3;
                fidel := Some "low" |} in
  let high := {| point := 1%nat; val := neg_inf; true_val := float_of_Z 2;
                 fidel := Some "high" |} in
  exists s,
    updates mf_caller BlackboxOptimiser [low; high]
      (after_set_up mf_caller BlackboxOptimiser blank) = (Ok tt, s) /\
    curr_opt_val s = neg_inf /\
    curr_opt_point s = None /\
    _get_final_return_quantities s = (Ok (neg_inf, None, history s), s).
Proof.
  intros low high.
  apply (neg_inf_records_never_become_the_incumbent mf_caller
           BlackboxOptimiser blank [low; high]).
  intros q [<-|[<-|[]]]; vm_compute; [discriminate | reflexivity].
Defined.

Lemma chain_improved_by_deterministic {P F} (fc : func_caller F)
    (qs : list (qinfo P F)) (s1 s1' : state P F) :
  chain (improved_by fc) qs s1 s1' ->
  forall s2 s2', chain (improved_by fc) qs s2 s2' ->
    optimum s1 = optimum s2 -> optimum s1' = optimum s2'.
Proof.
  intros H. induction H as [s|q qs s sa sb Ha _ IH]; intros s2 s2' H2 Ho.
  - inversion H2; subst. exact Ho.
  - inversion H2 as [|? ? ? sc ? Hc Hrest]; subst.
    apply (IH _ _ Hrest).
    unfold improved_by, optimum in *.
    injection Ho as O1 O2 O3 O4.
    destruct Ha as [-> [-> [-> ->]]]. destruct Hc as [-> [-> [-> ->]]].
    now rewrite O1, O2, O3, O4.
Qed.

(** C3, as the code has it.  On an instance whose lists of previous
    evaluations the base class created empty, handling [K] previous
    evaluations after set-up returns, and so do the updates of the same
    records; both leave the same four optimum attributes.  Handling them
    leaves [num_fidel_to_opt_calls] and every per-step sequence as set-up
    left them, and afterwards [prev_eval_points] and [prev_eval_vals], of
    the optimiser and of its history, hold the [K] points and values. *)
Theorem previous_evaluations_advance_the_optimum_only :
  forall (P F : Type) (fc : func_caller F) (s0 : state P F)
         (ks : list (qinfo P F)),
    prev_eval_points s0 = Some [] ->
    (is_mf fc = true -> exists fidels, prev_eval_fidels s0 = Some fidels) ->
    let s := after_set_up fc BlackboxOptimiser s0 in
    exists s_seed s_upd,
      _exd_child_handle_prev_evals fc BlackboxOptimiser ks s = (Ok tt, s_seed) /\
      updates fc BlackboxOptimiser ks s = (Ok tt, s_upd) /\
      optimum s_seed = optimum s_upd /\
      num_fidel_to_opt_calls s_seed = num_fidel_to_opt_calls s /\
      per_step_kept s s_seed /\
      prev_eval_points s_seed = Some (map (@point P F) ks) /\
      prev_eval_vals s_seed = map (@val P F) ks /\
      History.prev_eval_points (history s_seed) = map (@point P F) ks /\
      History.prev_eval_vals (history s_seed) = map (@val P F) ks /\
      List.length (History.prev_eval_points (history s_seed)) = List.length ks /\
      List.length (History.prev_eval_vals (history s_seed)) = List.length ks.
Proof.
  intros P F fc s0 ks Hps Hfs s.
  destruct (set_up_prev_evals fc BlackboxOptimiser s0) as [Sp [Sf [Sv _]]].
  fold s in Sp, Sf, Sv.
  assert (Hseedable : seedable fc s).
  { split; [exists []; congruence|]. intros Hmf. rewrite Sf. now apply Hfs. }
  destruct (handle_prev_eval_chain ks Hseedable) as [s1 [E1 [_ Hch1]]].
  destruct (updates_chain BlackboxOptimiser ks
              (set_up_ready fc BlackboxOptimiser s0))
    as [s2 [E2 [_ Hch2]]].
  fold s in E2, Hch2.
  assert (Hp1 : prev_eval_points s = Some []) by congruence.
  destruct (chain_seed_lists Hch1 Hp1) as [L1 [L2 [L3 _]]].
  rewrite Sv in L2. simpl in L1, L2.
  exists (set_history
            (History.set_prev_eval_vals (map (@val P F) ks)
               (History.set_prev_eval_points (map (@point P F) ks) (history s1)))
            s1), s2.
  split.
  { unfold _exd_child_handle_prev_evals. unfold bind at 1. rewrite E1.
    unfold_monad. rewrite L1. cbn. rewrite L2. reflexivity. }
  split; [exact E2|].
  split.
  { change (optimum s1 = optimum s2).
    eapply chain_improved_by_deterministic; [| |reflexivity].
    - eapply chain_impl; [|exact Hch1]. intros q sa sb H. apply H.
    - eapply chain_impl; [|exact Hch2]. intros q sa sb H. apply H. }
  split; [apply L3|].
  split; [exact L3|].
  cbn. rewrite !length_map. repeat split; assumption.
Qed.

Lemma previous_evaluations_advance_the_optimum_only_witness :
  let ks := [record 0 4 4 (Some "high"); record 1 9 9 (Some "low")] in
  let s := after_set_up mf_caller BlackboxOptimiser constructed in
  exists s_seed s_upd,
    _exd_child_handle_prev_evals mf_caller BlackboxOptimiser ks s
      = (Ok tt, s_seed) /\
    updates mf_caller BlackboxOptimiser ks s = (Ok tt, s_upd) /\
    optimum s_seed = optimum s_upd /\
    num_fidel_to_opt_calls s_seed = Some 0 /\
    List.length (History.prev_eval_points (history s_seed)) = 2%nat.
Proof.
  intros ks s.
  destruct (@previous_evaluations_advance_the_optimum_only nat string
              mf_caller constructed ks eq_refl
              (fun _ => ex_intro _ [] eq_refl))
    as [s_seed [s_upd [E1 [E2 [Ho [Hn [_ [_ [_ [_ [_ [Hl _]]]]]]]]]]]].
  exists s_seed, s_upd. repeat split; assumption.
Defined.

(** C3 as stated fails: in multi-fidelity mode a previous evaluation at the
    fidelity to optimise is counted by an update and not by the handling of
    previous evaluations. *)
Lemma previous_evaluations_are_not_counted :
  let q := record 0 4 4 (Some "high") in
  let s := after_set_up mf_caller BlackboxOptimiser constructed in
  result (_exd_child_handle_prev_evals mf_caller BlackboxOptimiser [q]) s = Ok tt /\
  result (updates mf_caller BlackboxOptimiser [q]) s = Ok tt /\
  num_fidel_to_opt_calls
    (exec (_exd_child_handle_prev_evals mf_caller BlackboxOptimiser [q]) s)
    = Some 0 /\
  num_fidel_to_opt_calls (exec (updates mf_caller BlackboxOptimiser [q]) s)
    = Some 1 /\
  num_fidel_to_opt_calls
    (exec (_exd_child_handle_prev_evals mf_caller BlackboxOptimiser [q]) s) <>
  num_fidel_to_opt_calls (exec (updates mf_caller BlackboxOptimiser [q]) s).
Proof. vm_compute. repeat split; discriminate. Qed.

(** C4, as the code has it.  On an [OptInitialiser], handling previous
    evaluations, producing initial records and determining the next query
    or the next batch of queries raise [ValueError] from every state and
    leave it as it was; the update is the one inherited from
    [BlackboxOptimiser], and after set-up it returns. *)
Theorem initialiser_raises_except_in_update :
  forall (P F : Type) (fc : func_caller F) (s : state P F)
         (ks : list (qinfo P F)) (n : Z),
    let e := ValueError "No reason to call this method in an initialiser." in
    _exd_child_handle_prev_evals fc OptInitialiser ks s = (Raised e, s) /\
    _get_initial_qinfos n s = (Raised e, s) /\
    _determine_next_query s = (Raised e, s) /\
    _determine_next_batch_of_queries n s = (Raised e, s) /\
    (forall q, _exd_child_update_history fc OptInitialiser q s =
               _exd_child_update_history fc BlackboxOptimiser q s) /\
    result (_exd_child_set_up fc OptInitialiser) s = Ok tt /\
    exists s', updates fc OptInitialiser ks (after_set_up fc OptInitialiser s)
               = (Ok tt, s').
Proof.
  intros P F fc s ks n e.
  repeat (split; [reflexivity|]).
  split; [apply set_up_result|].
  destruct (updates_chain OptInitialiser ks (set_up_ready fc OptInitialiser s))
    as [s' [E _]].
  now exists s'.
Qed.

(** C4 as stated fails: on an [OptInitialiser] the update returns and
    tracks the optimum; it does not raise. *)
Lemma initialiser_update_does_not_raise :
  let q := record 0 1 1 None in
  let s := after_set_up sf_caller OptInitialiser blank in
  result (_exd_child_update_history sf_caller OptInitialiser q) s = Ok tt /\
  result (_update_history sf_caller OptInitialiser q) s = Ok tt /\
  curr_opt_val (exec (_exd_child_update_history sf_caller OptInitialiser q) s)
    = float_of_Z 1 /\
  curr_opt_point (exec (_exd_child_update_history sf_caller OptInitialiser q) s)
    = Some 0%nat /\
  ~ (exists e, result (_exd_child_update_history sf_caller OptInitialiser q) s
               = Raised e).
Proof.
  vm_compute. repeat split. intros [e H]. discriminate H.
Qed.

(** ** The status line *)

Lemma string_app_assoc (a b c : string) :
  ((a ++ b) ++ c = a ++ (b ++ c))%string.
Proof. induction a as [|ch a IH]; simpl; [reflexivity | now rewrite IH]. Qed.

Lemma py_sum_counts (bs : list bool) :
  py_sum bs = Z.of_nat (count_occ Bool.bool_dec bs true).
Proof.
  unfold py_sum.
  assert (H : forall acc,
             fold_left (fun a (b : bool) => a + Z.b2z b) bs acc =
             acc + Z.of_nat (count_occ Bool.bool_dec bs true)).
  { induction bs as [|b bs IH]; intros acc; simpl; [lia|].
    rewrite IH. destruct b; simpl.
    - destruct (Bool.bool_dec true true); [lia | congruence].
    - destruct (Bool.bool_dec false true); [discriminate | lia]. }
  now rewrite H.
Qed.

Lemma py_slice_last_20 {A} (xs : list A) :
  py_slice_from (-20) xs = last_n (Nat.min 20 (List.length xs)) xs.
Proof.
  unfold py_slice_from, last_n. change (-20 <? 0) with true.
  cbv beta iota zeta. f_equal. lia.
Qed.

Lemma length_last_n {A} (n : nat) (xs : list A) :
  (n <= List.length xs)%nat -> List.length (last_n n xs) = n.
Proof. intros H. unfold last_n. rewrite length_skipn. lia. Qed.

(** C5, as the code has it.  In multi-fidelity mode the status line is the
    current maximum to five decimals, the total count of calls at the
    fidelity to optimise, and the count of those among the last
    [min(20, length)] processed evaluations over the constant 20; the state
    is left as it was.  The denominator is the size of the window once the
    history has twenty entries. *)
Theorem status_line_window_denominator_is_20 :
  forall (P F : Type) (fc : func_caller F) (s : state P F) (n : Z)
         (flags : list bool),
    is_mf fc = true ->
    num_fidel_to_opt_calls s = Some n ->
    History.query_at_fidel_to_opts (history s) = Some flags ->
    let window := last_n (Nat.min 20 (List.length flags)) flags in
    _get_exd_child_report_results_str fc BlackboxOptimiser s =
      (Ok ("curr_max=" ++ format_0_5f (curr_opt_val s) ++
           ", #f2o=" ++ format_d n ++
           "(" ++ format_d (Z.of_nat (count_occ Bool.bool_dec window true)) ++
           "/20), "), s) /\
    ((20 <= List.length flags)%nat ->
     result (_get_exd_child_report_results_str fc BlackboxOptimiser) s =
     match status_line_with_window_size s with
     | Some line => Ok line
     | None => Raised (AttributeError "query_at_fidel_to_opts")
     end).
Proof.
  intros P F fc s n flags Hmf Hn Hflags window.
  assert (E : _get_exd_child_report_results_str fc BlackboxOptimiser s =
      (Ok ("curr_max=" ++ format_0_5f (curr_opt_val s) ++
           ", #f2o=" ++ format_d n ++
           "(" ++ format_d (Z.of_nat (count_occ Bool.bool_dec window true)) ++
           "/20), "), s)).
  { unfold _get_exd_child_report_results_str,
      _get_opt_method_report_results_str.
    unfold_monad. rewrite Hmf, Hflags, Hn.
    rewrite py_slice_last_20, py_sum_counts. fold window.
    change (format_d 20) with "20".
    do 2 f_equal. rewrite !string_app_assoc. reflexivity. }
  split; [exact E|].
  intros Hlen. unfold result. rewrite E. simpl.
  unfold status_line_with_window_size. rewrite Hn, Hflags. fold window.
  subst window. rewrite length_last_n by lia.
  rewrite Nat.min_l by exact Hlen.
  change (format_d (Z.of_nat 20)) with "20".
  repeat f_equal.
Qed.

Lemma status_line_window_denominator_is_20_witness :
  let s := exec (updates mf_caller BlackboxOptimiser
                   [record 0 4 4 (Some "high"); record 1 9 9 (Some "low")])
                (after_set_up mf_caller BlackboxOptimiser blank) in
  _get_exd_child_report_results_str mf_caller BlackboxOptimiser s =
    (Ok "curr_max=4.00000, #f2o=1(1/20), ", s).
Proof.
  intros s.
  exact (proj1 (@status_line_window_denominator_is_20 nat string mf_caller s 1
                  [true; false] eq_refl eq_refl eq_refl)).
Defined.

(** C5 as stated fails: after one update the window holds one evaluation
    and the status line still shows 20 as its size. *)
Lemma status_line_shows_20_for_a_shorter_window :
  let s := exec (updates mf_caller BlackboxOptimiser
                   [record 0 4 4 (Some "high")])
                (after_set_up mf_caller BlackboxOptimiser blank) in
  result (_get_exd_child_report_results_str mf_caller BlackboxOptimiser) s
    = Ok "curr_max=4.00000, #f2o=1(1/20), " /\
  status_line_with_window_size s = Some "curr_max=4.00000, #f2o=1(1/1), " /\
  Some "curr_max=4.00000, #f2o=1(1/20), " <> status_line_with_window_size s.
Proof. vm_compute. repeat split. discriminate. Qed.

(** ** Construction *)

(** C8.  A multi-fidelity method bound to a caller that is not
    multi-fidelity: the run raises [CalledMFOptimiserWithSFCaller] at
    construction, with a message that contains the optimiser's and the
    caller's descriptions, and leaves the instance as it was -- no set-up,
    no update. *)
Theorem mf_method_with_sf_caller_fails_at_construction :
  forall (P F : Type) (fc : func_caller F) (c : cls) (s : state P F)
         (str_optimiser str_func_caller : string) (qs : list (qinfo P F)),
    is_mf fc = false ->
    run fc c true str_optimiser str_func_caller qs s =
      (Raised (CalledMFOptimiserWithSFCaller
                 (err_msg str_optimiser str_func_caller)), s) /\
    err_msg str_optimiser str_func_caller =
      "Called optimiser " ++ str_optimiser ++ " with func_caller " ++
      str_func_caller ++ ". func_caller needs to be multi-fidelity.".
Proof.
  intros P F fc c s so sf qs Hsf.
  unfold run, capability_check, CalledMFOptimiserWithSFCaller_init.
  rewrite Hsf. simpl. split; reflexivity.
Qed.

Lemma mf_method_with_sf_caller_fails_at_construction_witness :
  run sf_caller BlackboxOptimiser true "gp_bandit" "sf_func_caller"
      [record 0 4 4 None] blank =
    (Raised (CalledMFOptimiserWithSFCaller
       "Called optimiser gp_bandit with func_caller sf_func_caller. func_caller needs to be multi-fidelity."),
     blank).
Proof.
  exact (proj1 (@mf_method_with_sf_caller_fails_at_construction nat string
                  sf_caller BlackboxOptimiser blank "gp_bandit"
                  "sf_func_caller" [record 0 4 4 None] eq_refl)).
Defined.

(** ** More of the order of floats *)

Lemma SFcompare_Lt_Eq_trans (a b c : float) :
  SFcompare a b = Some Lt -> SFcompare b c = Some Eq -> SFcompare a c = Some Lt.
Proof.
  destruct a as [sa|sa| |sa ma ea], b as [sb|sb| |sb mb eb],
           c as [sc|sc| |sc mc ec]; simpl;
    try discriminate;
    try (destruct sa; discriminate); try (destruct sb; discriminate);
    try (destruct sc; discriminate);
    try (destruct sa, sb; discriminate); try (destruct sb, sc; discriminate);
    try (destruct sa, sb, sc; (discriminate || reflexivity)).
  all: destruct sa, sb, sc; intros H1 H2; try discriminate; try reflexivity;
    split_compare.
Qed.

Lemma SFcompare_Eq_trans (a b c : float) :
  SFcompare a b = Some Eq -> SFcompare b c = Some Eq -> SFcompare a c = Some Eq.
Proof.
  destruct a as [sa|sa| |sa ma ea], b as [sb|sb| |sb mb eb],
           c as [sc|sc| |sc mc ec]; simpl;
    try discriminate;
    try (destruct sa; discriminate); try (destruct sb; discriminate);
    try (destruct sc; discriminate);
    try (destruct sa, sb; discriminate); try (destruct sb, sc; discriminate);
    try (destruct sa, sb, sc; (discriminate || reflexivity)).
  all: destruct sa, sb, sc; intros H1 H2; try discriminate; try reflexivity;
    split_compare.
Qed.

Lemma py_le_trans (a b c : float) :
  py_le a b = true -> py_le b c = true -> py_le a c = true.
Proof.
  unfold py_le, SFleb. intros Hab Hbc.
  destruct (SFcompare a b) as [[]|] eqn:Eab; try discriminate;
    destruct (SFcompare b c) as [[]|] eqn:Ebc; try discriminate.
  - now rewrite (SFcompare_Eq_trans _ _ _ Eab Ebc).
  - now rewrite (SFcompare_Eq_Lt_trans _ _ _ Eab Ebc).
  - now rewrite (SFcompare_Lt_Eq_trans _ _ _ Eab Ebc).
  - now rewrite (SFcompare_Lt_trans _ _ _ Eab Ebc).
Qed.

Lemma py_le_antisym (a b : float) :
  py_le a b = true -> py_le b a = true -> py_eq a b = true.
Proof.
  unfold py_le, py_eq, SFleb, SFeqb. rewrite (SFcompare_antisym a b).
  destruct (SFcompare a b) as [[]|]; simpl; congruence.
Qed.

Lemma py_gt_left_not_nan (a b : float) : py_gt a b = true -> is_nan a = false.
Proof.
  unfold py_gt, SFltb. destruct a; try reflexivity.
  rewrite SFcompare_nan_r. discriminate.
Qed.

Lemma py_gt_implies_le (m v : float) : py_gt v m = true -> py_le m v = true.
Proof.
  unfold py_gt, py_le, SFltb, SFleb.
  destruct (SFcompare m v) as [[]|]; congruence.
Qed.

(** Whatever the values, NaN among them, the running maximum above a float
    that is not NaN is not NaN and is not below it. *)
Lemma running_max_above (vs : list float) :
  forall m, is_nan m = false ->
    is_nan (running_max m vs) = false /\ py_le m (running_max m vs) = true.
Proof.
  induction vs as [|v vs IH]; intros m Hm.
  - split; [exact Hm | now apply py_le_refl].
  - change (running_max m (v :: vs))
      with (running_max (if py_gt v m then v else m) vs).
    destruct (py_gt v m) eqn:E.
    + destruct (IH v (py_gt_left_not_nan _ _ E)) as [Hn Hle].
      split; [exact Hn|].
      eapply py_le_trans; [apply py_gt_implies_le; exact E | exact Hle].
    + now apply IH.
Qed.

Lemma running_max_app (m : float) (vs ws : list float) :
  running_max m (vs ++ ws) = running_max (running_max m vs) ws.
Proof. unfold running_max. now rewrite fold_left_app. Qed.

(** ** Further properties of the tracker *)

Lemma chain_split {S A} (R : A -> S -> S -> Prop) (xs ys : list A) (s s' : S) :
  chain R (xs ++ ys) s s' -> exists m, chain R xs s m /\ chain R ys m s'.
Proof.
  revert s. induction xs as [|x xs IH]; intros s H; simpl in H.
  - exists s. split; [constructor | exact H].
  - inversion H as [|? ? ? s1 ? Hx Hrest]; subst.
    destruct (IH _ Hrest) as [m [H1 H2]].
    exists m. split; [econstructor; eassumption | exact H2].
Qed.

Lemma child_chain_improved {P F} (fc : func_caller F) (qs : list (qinfo P F))
    (s s' : state P F) :
  chain (child_step fc) qs s s' -> chain (improved_by fc) qs s s'.
Proof. apply chain_impl. intros q s1 s2 H. apply H. Qed.

Lemma child_chain_snapshot {P F} (fc : func_caller F) (qs : list (qinfo P F))
    (s s' : state P F) :
  chain (child_step fc) qs s s' ->
  chain (fun _ => @snapshot_appended P F) qs s s'.
Proof. apply chain_impl. intros q s1 s2 H. apply H. Qed.

(** X1.  Set-up initialises the tracker on both classes and then returns on
    [OptInitialiser] but raises [NotImplementedError] on [BlackboxOptimiser],
    whose method hook is abstract; the state left is the same in both
    cases, and it does not depend on what was tracked before: set-up run
    again after any updates leaves the optimum at the sentinel, the per-step
    sequences empty and, in multi-fidelity mode, the counter at zero. *)
Theorem set_up_initialises_then_calls_the_method_hook :
  forall (P F : Type) (fc : func_caller F) (c : cls) (s0 : state P F)
         (qs : list (qinfo P F)),
    result (_exd_child_set_up fc OptInitialiser) s0 = Ok tt /\
    result (_exd_child_set_up fc BlackboxOptimiser) s0 =
      Raised (NotImplementedError "Implement in Optimisation Method class.") /\
    after_set_up fc BlackboxOptimiser s0 = after_set_up fc OptInitialiser s0 /\
    let used := exec (updates fc c qs) (after_set_up fc c s0) in
    let s := after_set_up fc c used in
    optimum s = (neg_inf, None, neg_inf, None) /\
    History.query_vals (history s) = [] /\
    History.query_true_vals (history s) = [] /\
    History.curr_opt_vals (history s) = [] /\
    History.curr_opt_points (history s) = [] /\
    History.curr_true_opt_vals (history s) = [] /\
    History.curr_true_opt_points (history s) = [] /\
    (is_mf fc = true ->
     num_fidel_to_opt_calls s = Some 0 /\
     History.query_at_fidel_to_opts (history s) = Some []).
Proof.
  intros P F fc c s0 qs.
  split; [apply (set_up_result fc OptInitialiser)|].
  split; [apply (set_up_result fc BlackboxOptimiser)|].
  split.
  { unfold after_set_up, exec, _exd_child_set_up, _blackbox_optimise_set_up,
      _opt_method_set_up.
    destruct (is_mf fc); vm_compute; reflexivity. }
  intros used s. subst s. clearbody used.
  destruct (set_up_history fc c used) as [H1 [H2 [H3 [H4 [H5 [H6 _]]]]]].
  unfold optimum.
  rewrite set_up_curr_opt_val, set_up_curr_opt_point,
    set_up_curr_true_opt_val, set_up_curr_true_opt_point.
  repeat (split; [assumption || reflexivity|]).
  intros Hmf.
  rewrite set_up_num_fidel_to_opt_calls, set_up_query_at_fidel_to_opts, Hmf.
  split; reflexivity.
Qed.

Lemma set_up_initialises_then_calls_the_method_hook_witness :
  num_fidel_to_opt_calls
    (after_set_up mf_caller BlackboxOptimiser
       (exec (updates mf_caller BlackboxOptimiser [record 0 4 4 (Some "high")])
             (after_set_up mf_caller BlackboxOptimiser blank))) = Some 0.
Proof.
  destruct (@set_up_initialises_then_calls_the_method_hook nat string
              mf_caller BlackboxOptimiser blank [record 0 4 4 (Some "high")])
    as [_ [_ [_ [_ [_ [_ [_ [_ [_ [_ H]]]]]]]]]].
  exact (proj1 (H eq_refl)).
Defined.

(** X2.  Whatever the records, NaN values among them, the two optimum
    values are never NaN after set-up and updates, and further updates never
    lower them. *)
Theorem optimum_values_never_decrease :
  forall (P F : Type) (fc : func_caller F) (c : cls) (s0 : state P F)
         (qs1 qs2 : list (qinfo P F)),
    exists s1 s2,
      updates fc c qs1 (after_set_up fc c s0) = (Ok tt, s1) /\
      updates fc c (qs1 ++ qs2) (after_set_up fc c s0) = (Ok tt, s2) /\
      is_nan (curr_opt_val s2) = false /\
      is_nan (curr_true_opt_val s2) = false /\
      py_le (curr_opt_val s1) (curr_opt_val s2) = true /\
      py_le (curr_true_opt_val s1) (curr_true_opt_val s2) = true.
Proof.
  intros P F fc c s0 qs1 qs2.
  destruct (updates_chain c qs1 (set_up_ready fc c s0)) as [s1 [E1 [_ C1]]].
  destruct (updates_chain c (qs1 ++ qs2) (set_up_ready fc c s0))
    as [s2 [E2 [_ C2]]].
  exists s1, s2. split; [exact E1|]. split; [exact E2|].
  destruct (chain_running_max (child_chain_improved C1)) as [V1 T1].
  destruct (chain_running_max (child_chain_improved C2)) as [V2 T2].
  rewrite set_up_curr_opt_val in V1, V2.
  rewrite set_up_curr_true_opt_val in T1, T2.
  rewrite filter_app, map_app, running_max_app in V2, T2.
  rewrite <- V1 in V2. rewrite <- T1 in T2.
  assert (N1 : is_nan (curr_opt_val s1) = false).
  { rewrite V1. now apply running_max_above. }
  assert (N2 : is_nan (curr_true_opt_val s1) = false).
  { rewrite T1. now apply running_max_above. }
  rewrite V2, T2.
  destruct (running_max_above
              (map (@val P F) (filter (eligible fc) qs2)) _ N1) as [A1 A2].
  destruct (running_max_above
              (map (@true_val P F) (filter (eligible fc) qs2)) _ N2)
    as [B1 B2].
  repeat split; assumption.
Qed.

Lemma attained_in_more {P F} (fc : func_caller F) (get : qinfo P F -> float)
    (qs qs' : list (qinfo P F)) (v : float) (p : option P) :
  (forall q, In q qs -> In q qs') ->
  attained_in fc get qs v p -> attained_in fc get qs' v p.
Proof.
  intros Hsub. destruct p as [x|]; simpl; [|auto].
  intros [q [Hin H]]. exists q. split; [now apply Hsub | exact H].
Qed.

Lemma chain_attained {P F} (fc : func_caller F) (qs : list (qinfo P F))
    (s s' : state P F) :
  chain (improved_by fc) qs s s' ->
  forall seen,
    attained_in fc (@val P F) seen (curr_opt_val s) (curr_opt_point s) ->
    attained_in fc (@true_val P F) seen
      (curr_true_opt_val s) (curr_true_opt_point s) ->
    attained_in fc (@val P F) (seen ++ qs) (curr_opt_val s') (curr_opt_point s') /\
    attained_in fc (@true_val P F) (seen ++ qs)
      (curr_true_opt_val s') (curr_true_opt_point s').
Proof.
  intros H.
  induction H as [s|q qs s s1 s2 [Hv [Hp [Htv Htp]]] _ IH]; intros seen Av At.
  - rewrite app_nil_r. now split.
  - replace (seen ++ q :: qs)%list with ((seen ++ [q]) ++ qs)%list
      by (rewrite <- app_assoc; reflexivity).
    apply IH.
    + rewrite Hv, Hp.
      destruct (eligible fc q) eqn:El; simpl.
      * destruct (py_gt (val q) (curr_opt_val s)).
        -- exists q. repeat split; try assumption.
           apply in_or_app. right. now left.
        -- eapply attained_in_more; [|exact Av].
           intros q' Hq'. apply in_or_app. now left.
      * eapply attained_in_more; [|exact Av].
        intros q' Hq'. apply in_or_app. now left.
    + rewrite Htv, Htp.
      destruct (eligible fc q) eqn:El; simpl.
      * destruct (py_gt (true_val q) (curr_true_opt_val s)).
        -- exists q. repeat split; try assumption.
           apply in_or_app. right. now left.
        -- eapply attained_in_more; [|exact At].
           intros q' Hq'. apply in_or_app. now left.
      * eapply attained_in_more; [|exact At].
        intros q' Hq'. apply in_or_app. now left.
Qed.

(** X3.  After set-up and any updates, the optimum point goes with the
    optimum value: when [curr_opt_point] is a point, it is the point of an
    eligible record among those processed whose [val] is [curr_opt_val], and
    when it is [None], [curr_opt_val] is still negative infinity; likewise
    for the true optimum.  These are the first two of the final return
    quantities, which are read without changing the state. *)
Theorem optimum_point_belongs_to_optimum_value :
  forall (P F : Type) (fc : func_caller F) (c : cls) (s0 : state P F)
         (qs : list (qinfo P F)),
    exists s,
      updates fc c qs (after_set_up fc c s0) = (Ok tt, s) /\
      attained_in fc (@val P F) qs (curr_opt_val s) (curr_opt_point s) /\
      attained_in fc (@true_val P F) qs
        (curr_true_opt_val s) (curr_true_opt_point s) /\
      _get_final_return_quantities s =
        (Ok (curr_opt_val s, curr_opt_point s, history s), s).
Proof.
  intros P F fc c s0 qs.
  destruct (updates_chain c qs (set_up_ready fc c s0)) as [s [E [_ Hch]]].
  exists s. split; [exact E|].
  destruct (@chain_attained P F fc qs _ s (child_chain_improved Hch) [])
    as [Av At].
  - rewrite set_up_curr_opt_val, set_up_curr_opt_point. reflexivity.
  - rewrite set_up_curr_true_opt_val, set_up_curr_true_opt_point. reflexivity.
  - simpl in Av, At. repeat split; assumption.
Qed.

Lemma in_eligible_vals {P F} (fc : func_caller F) (get : qinfo P F -> float)
    (qs : list (qinfo P F)) (x : float) :
  In x (map get (filter (eligible fc) qs)) <->
  exists q, In q qs /\ eligible fc q = true /\ get q = x.
Proof.
  rewrite in_map_iff. split.
  - intros [q [Hx Hq]]. apply filter_In in Hq as [Hin El]. eauto.
  - intros [q [Hin [El Hx]]]. exists q. split; [exact Hx|].
    apply filter_In. now split.
Qed.

Lemma running_max_permuted {P F} (fc : func_caller F)
    (get : qinfo P F -> float) (qs qs' : list (qinfo P F)) :
  Permutation qs qs' ->
  (forall q, In q qs -> is_nan (get q) = false) ->
  py_le (running_max neg_inf (map get (filter (eligible fc) qs)))
        (running_max neg_inf (map get (filter (eligible fc) qs'))) = true.
Proof.
  intros Hperm Hreal.
  assert (Hreal' : forall q, In q qs' -> is_nan (get q) = false).
  { intros q Hq. apply Hreal. eapply Permutation_in; [|exact Hq].
    now apply Permutation_sym. }
  assert (Hnn : forall l, (forall q, In q l -> is_nan (get q) = false) ->
            forallb (fun v => negb (is_nan v))
                    (map get (filter (eligible fc) l)) = true).
  { intros l Hl. apply forallb_forall. intros x Hx.
    apply in_eligible_vals in Hx as [q [Hin [_ <-]]]. now rewrite (Hl q Hin). }
  destruct (running_max_bounds neg_inf _ eq_refl (Hnn qs Hreal))
    as [_ [Hin _]].
  destruct (running_max_bounds neg_inf _ eq_refl (Hnn qs' Hreal'))
    as [_ [_ Hub']].
  apply Hub'. destruct Hin as [Hin|Hin]; [now left|right].
  apply in_eligible_vals in Hin as [q [Hq H]].
  apply in_eligible_vals. exists q. split; [|exact H].
  eapply Permutation_in; eassumption.
Qed.

(** X4.  The optimum values do not depend on the order in which the
    evaluations complete: for records whose values are not NaN, the updates
    of a sequence and of any permutation of it leave optimum values that are
    [==], and true optimum values that are [==]. *)
Theorem optimum_values_are_order_independent :
  forall (P F : Type) (fc : func_caller F) (c : cls) (s0 : state P F)
         (qs qs' : list (qinfo P F)),
    Permutation qs qs' ->
    (forall q, In q qs -> real_valued q = true) ->
    exists s s',
      updates fc c qs (after_set_up fc c s0) = (Ok tt, s) /\
      updates fc c qs' (after_set_up fc c s0) = (Ok tt, s') /\
      py_eq (curr_opt_val s) (curr_opt_val s') = true /\
      py_eq (curr_true_opt_val s) (curr_true_opt_val s') = true.
Proof.
  intros P F fc c s0 qs qs' Hperm Hreal.
  destruct (updates_chain c qs (set_up_ready fc c s0)) as [s [E [_ C1]]].
  destruct (updates_chain c qs' (set_up_ready fc c s0)) as [s' [E' [_ C2]]].
  exists s, s'. split; [exact E|]. split; [exact E'|].
  destruct (chain_running_max (child_chain_improved C1)) as [V1 T1].
  destruct (chain_running_max (child_chain_improved C2)) as [V2 T2].
  rewrite set_up_curr_opt_val in V1, V2.
  rewrite set_up_curr_true_opt_val in T1, T2.
  rewrite V1, V2, T1, T2.
  assert (Hv : forall q, In q qs -> is_nan (val q) = false).
  { intros q Hq. pose proof (Hreal q Hq) as H. unfold real_valued in H.
    apply andb_prop in H as [H _]. now apply negb_true_iff in H. }
  assert (Ht : forall q, In q qs -> is_nan (true_val q) = false).
  { intros q Hq. pose proof (Hreal q Hq) as H. unfold real_valued in H.
    apply andb_prop in H as [_ H]. now apply negb_true_iff in H. }
  assert (Hv' : forall q, In q qs' -> is_nan (val q) = false).
  { intros q Hq. apply Hv. eapply Permutation_in; [|exact Hq].
    now apply Permutation_sym. }
  assert (Ht' : forall q, In q qs' -> is_nan (true_val q) = false).
  { intros q Hq. apply Ht. eapply Permutation_in; [|exact Hq].
    now apply Permutation_sym. }
  split; apply py_le_antisym.
  - now apply running_max_permuted.
  - apply running_max_permuted; [now apply Permutation_sym | exact Hv'].
  - now apply running_max_permuted.
  - apply running_max_permuted; [now apply Permutation_sym | exact Ht'].
Qed.

Lemma optimum_values_are_order_independent_witness :
  let a := record 0 3 8 None in
  let b := record 1 7 2 None in
  exists s s',
    updates sf_caller BlackboxOptimiser [a; b]
      (after_set_up sf_caller BlackboxOptimiser blank) = (Ok tt, s) /\
    updates sf_caller BlackboxOptimiser [b; a]
      (after_set_up sf_caller BlackboxOptimiser blank) = (Ok tt, s') /\
    py_eq (curr_opt_val s) (curr_opt_val s') = true /\
    py_eq (curr_true_opt_val s) (curr_true_opt_val s') = true.
Proof.
  intros a b.
  apply (@optimum_values_are_order_independent nat string sf_caller
           BlackboxOptimiser blank [a; b] [b; a]).
  - apply perm_swap.
  - intros q [<-|[<-|[]]]; reflexivity.
Defined.

Lemma chain_improved_by_on_eligible {P F} (fc fc' : func_caller F)
    (qs : list (qinfo P F)) (s s1 : state P F) :
  (forall q : qinfo P F, eligible fc' q = true) ->
  chain (improved_by fc) qs s s1 ->
  forall t t1,
    chain (improved_by fc') (filter (eligible fc) qs) t t1 ->
    optimum s = optimum t -> optimum s1 = optimum t1.
Proof.
  intros Hall H.
  induction H as [s|q qs s sa sb Ha _ IH]; intros t t1 Ht Ho.
  - inversion Ht; subst. exact Ho.
  - simpl in Ht. destruct (eligible fc q) eqn:El.
    + inversion Ht as [|? ? ? tc ? Hc Hrest]; subst.
      apply (IH _ _ Hrest).
      unfold improved_by, optimum in *. rewrite El in Ha. rewrite Hall in Hc.
      injection Ho as O1 O2 O3 O4.
      destruct Ha as [-> [-> [-> ->]]]. destruct Hc as [-> [-> [-> ->]]].
      now rewrite O1, O2, O3, O4.
    + apply (IH _ _ Ht).
      rewrite (not_eligible_keeps_optimum El Ha). exact Ho.
Qed.

(** X5.  A multi-fidelity run tracks the optimum of its records at the
    fidelity to optimise, as a run without fidelities over those records
    alone would: the four optimum attributes are the same. *)
Theorem multi_fidelity_optimum_is_that_of_the_target_records :
  forall (P F : Type) (fc fc' : func_caller F) (c c' : cls)
         (s0 s0' : state P F) (qs : list (qinfo P F)),
    is_mf fc = true ->
    is_mf fc' = false ->
    exists s s',
      updates fc c qs (after_set_up fc c s0) = (Ok tt, s) /\
      updates fc' c' (filter (at_fidel_to_opt fc) qs)
        (after_set_up fc' c' s0') = (Ok tt, s') /\
      optimum s = optimum s'.
Proof.
  intros P F fc fc' c c' s0 s0' qs Hmf Hsf.
  destruct (updates_chain c qs (set_up_ready fc c s0)) as [s [E [_ C1]]].
  destruct (updates_chain c' (filter (at_fidel_to_opt fc) qs)
              (set_up_ready fc' c' s0')) as [s' [E' [_ C2]]].
  exists s, s'. split; [exact E|]. split; [exact E'|].
  assert (Hel : forall q : qinfo P F, eligible fc q = at_fidel_to_opt fc q)
    by (intros q; unfold eligible; now rewrite Hmf).
  rewrite (filter_ext _ _ (fun q => eq_sym (Hel q))) in C2.
  eapply (@chain_improved_by_on_eligible P F fc fc').
  - intros q. unfold eligible. now rewrite Hsf.
  - exact (child_chain_improved C1).
  - exact (child_chain_improved C2).
  - unfold optimum.
    now rewrite !set_up_curr_opt_val, !set_up_curr_opt_point,
      !set_up_curr_true_opt_val, !set_up_curr_true_opt_point.
Qed.

Lemma multi_fidelity_optimum_is_that_of_the_target_records_witness :
  let qs := [record 0 10 10 (Some "low"); record 1 4 4 (Some "high");
             record 2 8 8 (Some "high")] in
  exists s s',
    updates mf_caller BlackboxOptimiser qs
      (after_set_up mf_caller BlackboxOptimiser blank) = (Ok tt, s) /\
    updates sf_caller BlackboxOptimiser
      [record 1 4 4 (Some "high"); record 2 8 8 (Some "high")]
      (after_set_up sf_caller BlackboxOptimiser blank) = (Ok tt, s') /\
    optimum s = optimum s'.
Proof.
  intros qs.
  exact (@multi_fidelity_optimum_is_that_of_the_target_records nat string
           mf_caller sf_caller BlackboxOptimiser BlackboxOptimiser blank blank
           qs eq_refl eq_refl).
Defined.

Lemma for_each_app {S A} (body : A -> M S unit) (xs ys : list A) (s s' : S) :
  for_each body xs s = (Ok tt, s') ->
  for_each body (xs ++ ys) s = for_each body ys s'.
Proof.
  revert s. induction xs as [|x xs IH]; intros s H.
  - simpl in H. now inversion H.
  - simpl in *. unfold bind in *.
    destruct (body x s) as [[[]|e] s1]; [now apply IH | discriminate].
Qed.

Lemma Sorted_snoc {A} (R : A -> A -> Prop) (l : list A) (x d : A) :
  Sorted R l -> (l <> [] -> R (last l d) x) -> Sorted R (l ++ [x]).
Proof.
  induction l as [|a l IH]; intros Hs Hlast; simpl.
  - repeat constructor.
  - apply Sorted_inv in Hs as [Hs Hhd]. constructor.
    + apply IH; [exact Hs|]. intros Hne. specialize (Hlast ltac:(discriminate)).
      destruct l; [congruence | exact Hlast].
    + destruct l as [|b l]; simpl.
      * constructor. apply Hlast. discriminate.
      * constructor. now inversion Hhd.
Qed.

Lemma last_snoc {A} (l : list A) (x d : A) : last (l ++ [x]) d = x.
Proof.
  induction l as [|a l IH]; [reflexivity|].
  simpl. destruct (l ++ [x])%list eqn:E; [|exact IH].
  destruct l; discriminate.
Qed.

Lemma improved_value_bounds (elig : bool) (v m : float) :
  is_nan m = false ->
  let m' := if elig && py_gt v m then v else m in
  is_nan m' = false /\ py_le m m' = true.
Proof.
  intros Hm. destruct elig; simpl.
  - destruct (py_gt v m) eqn:E.
    + split; [exact (py_gt_left_not_nan _ _ E) | now apply py_gt_implies_le].
    + split; [exact Hm | now apply py_le_refl].
  - split; [exact Hm | now apply py_le_refl].
Qed.

Lemma chain_trajectory {P F} (fc : func_caller F) (qs : list (qinfo P F))
    (s s' : state P F) :
  chain (child_step fc) qs s s' ->
  let h := history s in
  is_nan (curr_opt_val s) = false ->
  is_nan (curr_true_opt_val s) = false ->
  Sorted py_le_rel (History.curr_opt_vals h) ->
  Sorted py_le_rel (History.curr_true_opt_vals h) ->
  last (History.curr_opt_vals h) neg_inf = curr_opt_val s ->
  last (History.curr_true_opt_vals h) neg_inf = curr_true_opt_val s ->
  last (History.curr_opt_points h) None = curr_opt_point s ->
  last (History.curr_true_opt_points h) None = curr_true_opt_point s ->
  let h' := history s' in
  Sorted py_le_rel (History.curr_opt_vals h') /\
  Sorted py_le_rel (History.curr_true_opt_vals h') /\
  last (History.curr_opt_vals h') neg_inf = curr_opt_val s' /\
  last (History.curr_true_opt_vals h') neg_inf = curr_true_opt_val s' /\
  last (History.curr_opt_points h') None = curr_opt_point s' /\
  last (History.curr_true_opt_points h') None = curr_true_opt_point s'.
Proof.
  intros H. cbn zeta.
  induction H as [s|q qs s s1 s2 Hstep _ IH];
    intros Nv Nt Sv St Lv Lt Lp Ltp.
  - repeat split; assumption.
  - destruct Hstep as [[Hv [Hp [Htv Htp]]] [[A1 [A2 [A3 A4]]] _]].
    destruct (@improved_value_bounds (eligible fc q) (val q) _ Nv)
      as [Nv' Lev].
    destruct (@improved_value_bounds (eligible fc q) (true_val q) _ Nt)
      as [Nt' Let].
    rewrite <- Hv in Nv', Lev. rewrite <- Htv in Nt', Let.
    apply IH; try assumption.
    + rewrite A1. apply Sorted_snoc with (d := neg_inf); [exact Sv|].
      intros _. unfold py_le_rel. now rewrite Lv.
    + rewrite A3. apply Sorted_snoc with (d := neg_inf); [exact St|].
      intros _. unfold py_le_rel. now rewrite Lt.
    + rewrite A1. apply last_snoc.
    + rewrite A3. apply last_snoc.
    + rewrite A2. apply last_snoc.
    + rewrite A4. apply last_snoc.
Qed.

(** X6.  After set-up and any updates, the two sequences of running optimum
    values in the history are non-decreasing, and the last entry of each of
    the four snapshot sequences is the current optimum attribute (the
    sentinel and [None] while the sequences are empty). *)
Theorem optimum_trajectory_is_non_decreasing :
  forall (P F : Type) (fc : func_caller F) (c : cls) (s0 : state P F)
         (qs : list (qinfo P F)),
    exists s,
      updates fc c qs (after_set_up fc c s0) = (Ok tt, s) /\
      let h := history s in
      Sorted py_le_rel (History.curr_opt_vals h) /\
      Sorted py_le_rel (History.curr_true_opt_vals h) /\
      last (History.curr_opt_vals h) neg_inf = curr_opt_val s /\
      last (History.curr_true_opt_vals h) neg_inf = curr_true_opt_val s /\
      last (History.curr_opt_points h) None = curr_opt_point s /\
      last (History.curr_true_opt_points h) None = curr_true_opt_point s.
Proof.
  intros P F fc c s0 qs.
  destruct (updates_chain c qs (set_up_ready fc c s0)) as [s [E [_ Hch]]].
  exists s. split; [exact E|].
  destruct (set_up_history fc c s0) as [_ [_ [S3 [S4 [S5 [S6 _]]]]]].
  apply (chain_trajectory Hch);
    rewrite ?S3, ?S4, ?S5, ?S6, ?set_up_curr_opt_val, ?set_up_curr_opt_point,
      ?set_up_curr_true_opt_val, ?set_up_curr_true_opt_point;
    try reflexivity; constructor.
Qed.

Lemma chain_snapshot_extends {P F} (qs : list (qinfo P F)) (s s' : state P F) :
  chain (fun _ => @snapshot_appended P F) qs s s' ->
  let h := history s in
  let h' := history s' in
  (exists t, History.curr_opt_vals h' = (History.curr_opt_vals h ++ t)%list) /\
  (exists t, History.curr_opt_points h' =
             (History.curr_opt_points h ++ t)%list) /\
  (exists t, History.curr_true_opt_vals h' =
             (History.curr_true_opt_vals h ++ t)%list) /\
  (exists t, History.curr_true_opt_points h' =
             (History.curr_true_opt_points h ++ t)%list).
Proof.
  intros H. cbn zeta.
  induction H as [s|q qs s s1 s2 [A1 [A2 [A3 A4]]] _ IH].
  - repeat split; exists []; now rewrite app_nil_r.
  - destruct IH as [[t1 I1] [[t2 I2] [[t3 I3] [t4 I4]]]].
    rewrite I1, I2, I3, I4, A1, A2, A3, A4, <- !app_assoc.
    repeat split; eexists; reflexivity.
Qed.

Lemma nth_error_snoc_app {A} (l t : list A) (x : A) :
  nth_error ((l ++ [x]) ++ t) (List.length l) = Some x.
Proof.
  rewrite <- app_assoc. rewrite nth_error_app2 by lia.
  now rewrite Nat.sub_diag.
Qed.

(** X7.  The history keeps the optimum as it was after each update: once a
    run is over, the entry of index [i] of each snapshot sequence is the
    optimum attribute as it stood after the update of index [i]. *)
Theorem snapshot_entry_is_the_optimum_after_that_update :
  forall (P F : Type) (fc : func_caller F) (c : cls) (s0 : state P F)
         (qs1 qs2 : list (qinfo P F)) (q : qinfo P F),
    exists si s,
      updates fc c (qs1 ++ [q]) (after_set_up fc c s0) = (Ok tt, si) /\
      updates fc c (qs1 ++ q :: qs2) (after_set_up fc c s0) = (Ok tt, s) /\
      let i := List.length qs1 in
      let h := history s in
      nth_error (History.curr_opt_vals h) i = Some (curr_opt_val si) /\
      nth_error (History.curr_opt_points h) i = Some (curr_opt_point si) /\
      nth_error (History.curr_true_opt_vals h) i = Some (curr_true_opt_val si) /\
      nth_error (History.curr_true_opt_points h) i =
        Some (curr_true_opt_point si).
Proof.
  intros P F fc c s0 qs1 qs2 q.
  destruct (updates_chain c qs1 (set_up_ready fc c s0)) as [sa [Ea [Ra Ca]]].
  destruct (exd_child_update_history_step c q Ra)
    as [si [Ei [Ri [_ [[A1 [A2 [A3 A4]]] _]]]]].
  destruct (updates_chain c qs2 Ri) as [s [E [_ Cs]]].
  assert (Esi : updates fc c (qs1 ++ [q]) (after_set_up fc c s0) = (Ok tt, si)).
  { unfold updates in *.
    rewrite (@for_each_app _ _ (_exd_child_update_history fc c) qs1 [q] _ _ Ea).
    simpl. unfold bind. now rewrite Ei. }
  exists si, s. split; [exact Esi|]. split.
  { replace (qs1 ++ q :: qs2)%list with ((qs1 ++ [q]) ++ qs2)%list
      by (rewrite <- app_assoc; reflexivity).
    unfold updates in *.
    now rewrite (@for_each_app _ _ (_exd_child_update_history fc c)
                   (qs1 ++ [q]) qs2 _ _ Esi). }
  cbn zeta.
  destruct (chain_snapshot_lengths (child_chain_snapshot Ca))
    as [L1 [L2 [L3 L4]]].
  destruct (set_up_history fc c s0) as [_ [_ [S3 [S4 [S5 [S6 _]]]]]].
  rewrite S3 in L1. rewrite S4 in L2. rewrite S5 in L3. rewrite S6 in L4.
  simpl in L1, L2, L3, L4.
  destruct (chain_snapshot_extends (child_chain_snapshot Cs))
    as [[t1 I1] [[t2 I2] [[t3 I3] [t4 I4]]]].
  rewrite I1, I2, I3, I4, A1, A2, A3, A4.
  rewrite <- L1 at 1. rewrite <- L2 at 1. rewrite <- L3 at 1.
  rewrite <- L4 at 1.
  repeat split; apply nth_error_snoc_app.
Qed.



Lemma count_at_fidel_to_opt_is_sum {P F} (fc : func_caller F)
    (qs : list (qinfo P F)) :
  count_at_fidel_to_opt fc qs = py_sum (map (at_fidel_to_opt fc) qs).
Proof.
  rewrite py_sum_counts. unfold count_at_fidel_to_opt. f_equal.
  induction qs as [|q qs IH]; [reflexivity|].
  simpl. destruct (at_fidel_to_opt fc q); simpl.
  - destruct (Bool.bool_dec true true); [now rewrite IH | congruence].
  - destruct (Bool.bool_dec false true); [discriminate | exact IH].
Qed.

Lemma count_occ_skipn_le (bs : list bool) (k : nat) :
  (count_occ Bool.bool_dec (skipn k bs) true
   <= count_occ Bool.bool_dec bs true)%nat.
Proof.
  rewrite <- (firstn_skipn k bs) at 2. rewrite count_occ_app. lia.
Qed.

Lemma count_occ_le_length (bs : list bool) :
  (count_occ Bool.bool_dec bs true <= List.length bs)%nat.
Proof.
  induction bs as [|b bs IH]; simpl; [lia|].
  destruct (Bool.bool_dec b true); lia.
Qed.

Lemma window_sum_bounds (flags : list bool) :
  let w := py_sum (py_slice_from (-20) flags) in
  0 <= w <= py_sum flags /\ w <= 20 /\
  ((List.length flags <= 20)%nat -> w = py_sum flags).
Proof.
  cbn zeta. rewrite py_slice_last_20, !py_sum_counts. unfold last_n.
  pose proof (count_occ_skipn_le flags
                (List.length flags - Nat.min 20 (List.length flags))) as H1.
  pose proof (count_occ_le_length
                (skipn (List.length flags - Nat.min 20 (List.length flags))
                       flags)) as H2.
  rewrite length_skipn in H2.
  split; [lia|]. split; [lia|].
  intros Hlen.
  replace (List.length flags - Nat.min 20 (List.length flags))%nat with 0%nat
    by lia.
  reflexivity.
Qed.

(** X9.  In multi-fidelity mode, after set-up and any updates, the flags of
    the history are those of the records in order, the counter is their sum,
    and the status line returns, leaving the state as it was, with the
    counter and the sum of the last twenty flags; that second number is
    never more than the first nor than twenty, and equals the first as long
    as no more than twenty updates were made. *)
Theorem status_line_counts_after_updates :
  forall (P F : Type) (fc : func_caller F) (c : cls) (s0 : state P F)
         (qs : list (qinfo P F)),
    is_mf fc = true ->
    exists s n w,
      updates fc c qs (after_set_up fc c s0) = (Ok tt, s) /\
      History.query_at_fidel_to_opts (history s) =
        Some (map (at_fidel_to_opt fc) qs) /\
      num_fidel_to_opt_calls s = Some n /\
      n = py_sum (map (at_fidel_to_opt fc) qs) /\
      w = py_sum (py_slice_from (-20) (map (at_fidel_to_opt fc) qs)) /\
      _get_exd_child_report_results_str fc BlackboxOptimiser s =
        (Ok ("curr_max=" ++ format_0_5f (curr_opt_val s) ++
             ", #f2o=" ++ format_d n ++ "(" ++ format_d w ++ "/20), "), s) /\
      0 <= w <= n /\ w <= 20 /\
      ((List.length qs <= 20)%nat -> w = n).
Proof.
  intros P F fc c s0 qs Hmf.
  destruct (updates_chain c qs (set_up_ready fc c s0)) as [s [E [_ Hch]]].
  assert (Hfc : chain (fidelity_counted fc) qs (after_set_up fc c s0) s).
  { eapply chain_impl; [|exact Hch]. intros q s1 s2 H. apply H. }
  destruct (@chain_fidelity_counted_mf P F fc qs _ s 0 [] Hmf Hfc)
    as [Hn Hflags].
  { rewrite set_up_num_fidel_to_opt_calls, Hmf. reflexivity. }
  { rewrite set_up_query_at_fidel_to_opts, Hmf. reflexivity. }
  simpl in Hn, Hflags. rewrite count_at_fidel_to_opt_is_sum in Hn.
  exists s, (py_sum (map (at_fidel_to_opt fc) qs)),
    (py_sum (py_slice_from (-20) (map (at_fidel_to_opt fc) qs))).
  split; [exact E|]. split; [exact Hflags|]. split; [exact Hn|].
  split; [reflexivity|]. split; [reflexivity|].
  split.
  { unfold _get_exd_child_report_results_str,
      _get_opt_method_report_results_str.
    unfold_monad. rewrite Hmf, Hflags, Hn.
    change (format_d 20) with "20".
    do 2 f_equal. rewrite !string_app_assoc. reflexivity. }
  destruct (window_sum_bounds (map (at_fidel_to_opt fc) qs)) as [B1 [B2 B3]].
  split; [exact B1|]. split; [exact B2|].
  intros Hlen. apply B3. now rewrite length_map.
Qed.

Lemma status_line_counts_after_updates_witness :
  let qs := [record 0 10 10 (Some "low"); record 1 4 4 (Some "high");
             record 2 8 8 None] in
  exists s,
    updates mf_caller BlackboxOptimiser qs
      (after_set_up mf_caller BlackboxOptimiser blank) = (Ok tt, s) /\
    _get_exd_child_report_results_str mf_caller BlackboxOptimiser s =
      (Ok "curr_max=8.00000, #f2o=2(2/20), ", s).
Proof.
  intros qs.
  destruct (@status_line_counts_after_updates nat string mf_caller
              BlackboxOptimiser blank qs eq_refl)
    as [s [n [w [E [_ [Hn [En [Ew [Hline _]]]]]]]]].
  exists s. split; [exact E|].
  rewrite Hline. subst n w.
  assert (Hv : curr_opt_val s = float_of_Z 8).
  { unfold updates in E. vm_compute in E. injection E as <-. reflexivity. }
  rewrite Hv. reflexivity.
Defined.

Lemma handle_prev_evals_returns {P F} (fc : func_caller F)
    (ks : list (qinfo P F)) (s : state P F) :
  seedable fc s ->
  exists s1 points,
    chain (seed_step fc) ks s s1 /\
    prev_eval_points s1 = Some points /\
    _exd_child_handle_prev_evals fc BlackboxOptimiser ks s =
      (Ok tt,
       set_history
         (History.set_prev_eval_vals (prev_eval_vals s1)
            (History.set_prev_eval_points points (history s1))) s1).
Proof.
  intros Hs.
  destruct (handle_prev_eval_chain ks Hs) as [s1 [E1 [[[points Hp] _] Hch]]].
  exists s1, points. split; [exact Hch|]. split; [exact Hp|].
  unfold _exd_child_handle_prev_evals. unfold bind at 1. rewrite E1.
  unfold_monad. rewrite Hp. reflexivity.
Qed.

Lemma seed_chain_improved {P F} (fc : func_caller F) (ks : list (qinfo P F))
    (s s' : state P F) :
  chain (seed_step fc) ks s s' -> chain (improved_by fc) ks s s'.
Proof. apply chain_impl. intros q s1 s2 H. apply H. Qed.

(** X10.  Warm start composes with the live run: on an instance whose lists
    of previous evaluations exist, handling the previous evaluations [ks]
    after set-up and then updating with [qs] leaves the four optimum
    attributes that updating with [ks] followed by [qs] leaves. *)
Theorem seeding_then_updating_tracks_the_whole_sequence :
  forall (P F : Type) (fc : func_caller F) (s0 : state P F)
         (ks qs : list (qinfo P F)),
    seedable fc s0 ->
    let s := after_set_up fc BlackboxOptimiser s0 in
    exists s_seed s1 s2,
      _exd_child_handle_prev_evals fc BlackboxOptimiser ks s = (Ok tt, s_seed) /\
      updates fc BlackboxOptimiser qs s_seed = (Ok tt, s1) /\
      updates fc BlackboxOptimiser (ks ++ qs) s = (Ok tt, s2) /\
      optimum s1 = optimum s2.
Proof.
  intros P F fc s0 ks qs [[ps Hps] Hfs] s.
  destruct (set_up_prev_evals fc BlackboxOptimiser s0) as [Sp [Sf _]].
  fold s in Sp, Sf.
  assert (Hseedable : seedable fc s).
  { split; [exists ps; congruence|]. intros Hmf. rewrite Sf. now apply Hfs. }
  destruct (handle_prev_evals_returns ks Hseedable)
    as [sk [points [Ck [_ Ek]]]].
  set (s_seed := set_history _ sk) in Ek.
  assert (Hkeep : per_step_kept s s_seed).
  { pose proof (handle_prev_evals_keeps fc BlackboxOptimiser ks s) as H.
    unfold exec in H. rewrite Ek in H. exact H. }
  pose proof (per_step_kept_ready Hkeep (set_up_ready fc BlackboxOptimiser s0))
    as Hready.
  destruct (updates_chain BlackboxOptimiser qs Hready) as [s1 [E1 [_ C1]]].
  destruct (updates_chain BlackboxOptimiser (ks ++ qs)
              (set_up_ready fc BlackboxOptimiser s0)) as [s2 [E2 [_ C2]]].
  fold s in E2, C2.
  exists s_seed, s1, s2.
  split; [exact Ek|]. split; [exact E1|]. split; [exact E2|].
  destruct (chain_split _ _ (child_chain_improved C2)) as [m [Ca Cb]].
  pose proof (chain_improved_by_deterministic (seed_chain_improved Ck) Ca
                eq_refl) as Hm.
  exact (chain_improved_by_deterministic (child_chain_improved C1) Cb Hm).
Qed.

Lemma seeding_then_updating_tracks_the_whole_sequence_witness :
  let ks := [record 0 4 4 (Some "high"); record 1 9 9 (Some "low")] in
  let qs := [record 2 3 6 (Some "high")] in
  let s := after_set_up mf_caller BlackboxOptimiser constructed in
  exists s_seed s1 s2,
    _exd_child_handle_prev_evals mf_caller BlackboxOptimiser ks s
      = (Ok tt, s_seed) /\
    updates mf_caller BlackboxOptimiser qs s_seed = (Ok tt, s1) /\
    updates mf_caller BlackboxOptimiser (ks ++ qs) s = (Ok tt, s2) /\
    optimum s1 = optimum s2.
Proof.
  intros ks qs s.
  apply (@seeding_then_updating_tracks_the_whole_sequence nat string
           mf_caller constructed ks qs).
  split; [exists []; reflexivity | intros _; exists []; reflexivity].
Defined.

Lemma handle_prev_eval_lists {P F} (fc : func_caller F)
    (ks : list (qinfo P F)) :
  forall (s : state P F) (points : list P),
    prev_eval_points s = Some points ->
    (is_mf fc = true -> exists fidels, prev_eval_fidels s = Some fidels) ->
    exists s',
      for_each (handle_prev_eval fc) ks s = (Ok tt, s') /\
      prev_eval_points s' = Some (points ++ map (@point P F) ks)%list /\
      prev_eval_true_vals s' = prev_eval_true_vals s /\
      (if is_mf fc
       then forall fidels, prev_eval_fidels s = Some fidels ->
              prev_eval_fidels s' =
              Some (fidels ++ map (eval_fidel_of fc) ks)%list
       else prev_eval_fidels s' = prev_eval_fidels s).
Proof.
  induction ks as [|q ks IH]; intros s points Hp Hf.
  - exists s. simpl. rewrite app_nil_r. repeat split; try assumption.
    destruct (is_mf fc); [|reflexivity].
    intros fidels ->. now rewrite app_nil_r.
  - assert (Hstep : exists s1,
              handle_prev_eval fc q s = (Ok tt, s1) /\
              prev_eval_points s1 = Some (points ++ [point q])%list /\
              prev_eval_true_vals s1 = prev_eval_true_vals s /\
              (if is_mf fc
               then forall fidels, prev_eval_fidels s = Some fidels ->
                      prev_eval_fidels s1 =
                      Some (fidels ++ [eval_fidel_of fc q])%list
               else prev_eval_fidels s1 = prev_eval_fidels s)).
    { unfold handle_prev_eval, _update_opt_point_and_val. unfold_monad.
      destruct (is_mf fc) eqn:Emf.
      - destruct (Hf eq_refl) as [fs Hfs]. rewrite Hfs. cbn.
        destruct (is_fidel_to_opt fc (eval_fidel_of fc q)); cbn;
          try destruct (py_gt (val q) (curr_opt_val s)); cbn;
          try destruct (py_gt (true_val q) (curr_true_opt_val s)); cbn;
          rewrite Hp; cbn;
          (eexists; split; [reflexivity|]); cbn;
          (split; [reflexivity|]); (split; [reflexivity|]);
          intros fidels E; injection E as <-; reflexivity.
      - destruct (py_gt (val q) (curr_opt_val s)); cbn;
          destruct (py_gt (true_val q) (curr_true_opt_val s)); cbn;
          rewrite Hp; cbn;
          (eexists; split; [reflexivity|]); cbn; repeat split. }
    destruct Hstep as [s1 [E1 [Hp1 [Ht1 Hf1]]]].
    destruct (IH s1 _ Hp1) as [s' [E' [Hp' [Ht' Hf']]]].
    { intros Hmf. rewrite Hmf in Hf1. destruct (Hf Hmf) as [fs Hfs].
      eexists. exact (Hf1 _ Hfs). }
    exists s'. split.
    { simpl. unfold bind. rewrite E1. exact E'. }
    split; [rewrite Hp', <- app_assoc; reflexivity|].
    split; [congruence|].
    destruct (is_mf fc); [|congruence].
    intros fidels Hfs. rewrite (Hf' _ (Hf1 _ Hfs)), <- app_assoc. reflexivity.
Qed.

(** X11.  Handling [K] previous evaluations on an instance whose lists
    exist returns; in multi-fidelity mode it appends to [prev_eval_fidels]
    the fidelity of each record, the caller's fidelity to optimise for a
    record that carries none, and without fidelities it leaves
    [prev_eval_fidels] alone.  It never appends to [prev_eval_true_vals],
    which stays as it was (empty after set-up). *)
Theorem seeding_records_fidelities_and_no_true_values :
  forall (P F : Type) (fc : func_caller F) (s : state P F)
         (ks : list (qinfo P F)) (points : list P),
    prev_eval_points s = Some points ->
    (is_mf fc = true -> exists fidels, prev_eval_fidels s = Some fidels) ->
    exists s',
      _exd_child_handle_prev_evals fc BlackboxOptimiser ks s = (Ok tt, s') /\
      prev_eval_true_vals s' = prev_eval_true_vals s /\
      (is_mf fc = true ->
       forall fidels, prev_eval_fidels s = Some fidels ->
         prev_eval_fidels s' =
         Some (fidels ++ map (eval_fidel_of fc) ks)%list) /\
      (is_mf fc = false -> prev_eval_fidels s' = prev_eval_fidels s).
Proof.
  intros P F fc s ks points Hp Hf.
  destruct (handle_prev_eval_lists fc ks s Hp Hf) as [s1 [E1 [Hp1 [Ht1 Hf1]]]].
  eexists. split.
  { unfold _exd_child_handle_prev_evals. unfold bind at 1. rewrite E1.
    unfold_monad. rewrite Hp1. reflexivity. }
  cbn. split; [exact Ht1|].
  split; intros Hmf; rewrite Hmf in Hf1; exact Hf1.
Qed.

Lemma seeding_records_fidelities_and_no_true_values_witness :
  let ks := [record 0 4 4 (Some "low"); record 1 9 9 None] in
  let s := after_set_up mf_caller BlackboxOptimiser constructed in
  exists s',
    _exd_child_handle_prev_evals mf_caller BlackboxOptimiser ks s
      = (Ok tt, s') /\
    prev_eval_true_vals s' = [] /\
    prev_eval_fidels s' = Some ["low"; "high"].
Proof.
  intros ks s.
  destruct (@seeding_records_fidelities_and_no_true_values nat string
              mf_caller s ks [] eq_refl (fun _ => ex_intro _ [] eq_refl))
    as [s' [E [Ht [Hf _]]]].
  exists s'. split; [exact E|]. split; [exact Ht|].
  exact (Hf eq_refl [] eq_refl).
Defined.

(** X12.  Handling previous evaluations needs the lists that the base class
    creates.  Without [prev_eval_points] it raises [AttributeError] even for
    no previous evaluation; in multi-fidelity mode without
    [prev_eval_fidels] it raises at the first record and changes nothing;
    without fidelities and without [prev_eval_points] it raises at the first
    record after that record has improved the optimum, and records
    nothing. *)
Theorem seeding_needs_the_lists_of_the_base_class :
  forall (P F : Type) (fc : func_caller F) (s : state P F)
         (q : qinfo P F) (ks : list (qinfo P F)),
    (prev_eval_points s = None ->
     _exd_child_handle_prev_evals fc BlackboxOptimiser [] s =
       (Raised (AttributeError "prev_eval_points"), s)) /\
    (is_mf fc = true -> prev_eval_fidels s = None ->
     _exd_child_handle_prev_evals fc BlackboxOptimiser (q :: ks) s =
       (Raised (AttributeError "prev_eval_fidels"), s)) /\
    (is_mf fc = false -> prev_eval_points s = None ->
     exists s',
       _exd_child_handle_prev_evals fc BlackboxOptimiser (q :: ks) s =
         (Raised (AttributeError "prev_eval_points"), s') /\
       improved_by fc q s s' /\
       per_step_kept s s' /\
       prev_eval_points s' = None /\
       prev_eval_vals s' = prev_eval_vals s /\
       History.prev_eval_points (history s') =
         History.prev_eval_points (history s) /\
       History.prev_eval_vals (history s') = History.prev_eval_vals (history s)).
Proof.
  intros P F fc s q ks.
  unfold _exd_child_handle_prev_evals, handle_prev_eval,
    _update_opt_point_and_val, improved_by, per_step_kept, eligible.
  split; [|split].
  - intros Hp. simpl. unfold_monad. rewrite Hp. reflexivity.
  - intros Hmf Hf. simpl. unfold_monad. rewrite Hmf, Hf. reflexivity.
  - intros Hsf Hp. simpl. unfold_monad. rewrite Hsf.
    destruct (py_gt (val q) (curr_opt_val s)) eqn:E1; cbn;
      destruct (py_gt (true_val q) (curr_true_opt_val s)) eqn:E2; cbn;
      rewrite Hp; cbn;
      (eexists; split; [reflexivity|]); cbn; rewrite ?E1, ?E2;
      repeat split; assumption.
Qed.

Lemma seeding_needs_the_lists_of_the_base_class_witness :
  let s := after_set_up sf_caller BlackboxOptimiser (@blank nat string) in
  let q := record 0 4 4 None in
  exists s',
    _exd_child_handle_prev_evals sf_caller BlackboxOptimiser [q] s =
      (Raised (AttributeError "prev_eval_points"), s') /\
    curr_opt_val s' = float_of_Z 4 /\
    prev_eval_vals s' = [].
Proof.
  intros s q.
  destruct (proj2 (proj2 (@seeding_needs_the_lists_of_the_base_class
                            nat string sf_caller s q [])) eq_refl eq_refl)
    as [s' [E [[Hv _] [_ [_ [Hvals _]]]]]].
  exists s'. split; [exact E|]. split; [exact Hv | exact Hvals].
Defined.



Lemma py_le_gt_strict (a b c : float) :
  py_le a b = true -> py_gt c b = true -> py_gt c a = true.
Proof.
  unfold py_gt, py_le, SFltb, SFleb. intros Hab Hbc.
  destruct (SFcompare b c) as [[]|] eqn:Ebc; try discriminate.
  destruct (SFcompare a b) as [[]|] eqn:Eab; try discriminate.
  - now rewrite (SFcompare_Eq_Lt_trans _ _ _ Eab Ebc).
  - now rewrite (SFcompare_Lt_trans _ _ _ Eab Ebc).
Qed.

(** One record more: the first record to attain the optimum stays the
    incumbent unless the new record is eligible and strictly greater. *)
Lemma first_to_attain_step {P F} (fc : func_caller F)
    (get : qinfo P F -> float) (seen : list (qinfo P F)) (q : qinfo P F)
    (cur : float) (p : option P) :
  is_nan (get q) = false ->
  is_nan cur = false ->
  bounds_eligible fc get seen cur ->
  first_to_attain fc get seen cur p ->
  let better := eligible fc q && py_gt (get q) cur in
  let cur' := if better then get q else cur in
  let p' := if better then Some (point q) else p in
  is_nan cur' = false /\
  bounds_eligible fc get (seen ++ [q]) cur' /\
  first_to_attain fc get (seen ++ [q]) cur' p'.
Proof.
  intros Hq Hcur Hub Hfirst. cbn zeta.
  destruct (eligible fc q) eqn:El; simpl.
  - destruct (py_gt (get q) cur) eqn:E.
    + split; [exact Hq|]. split.
      * intros q' Hin El'. apply in_app_or in Hin as [Hin|[<-|[]]].
        -- eapply py_le_gt_trans; [exact (Hub q' Hin El') | exact E].
        -- now apply py_le_refl.
      * exists seen, q, []. repeat split; try assumption.
        intros q' Hin El'.
        eapply py_le_gt_strict; [exact (Hub q' Hin El') | exact E].
    + split; [exact Hcur|]. split.
      * intros q' Hin El'. apply in_app_or in Hin as [Hin|[<-|[]]].
        -- exact (Hub q' Hin El').
        -- now apply py_gt_false_le.
      * destruct p as [x|]; simpl in *; [|exact Hfirst].
        destruct Hfirst as [pre [q0 [post [Hs H]]]].
        exists pre, q0, (post ++ [q])%list. split; [|exact H].
        rewrite Hs, <- app_assoc. reflexivity.
  - split; [exact Hcur|]. split.
    + intros q' Hin El'. apply in_app_or in Hin as [Hin|[<-|[]]].
      * exact (Hub q' Hin El').
      * congruence.
    + destruct p as [x|]; simpl in *; [|exact Hfirst].
      destruct Hfirst as [pre [q0 [post [Hs H]]]].
      exists pre, q0, (post ++ [q])%list. split; [|exact H].
      rewrite Hs, <- app_assoc. reflexivity.
Qed.

Lemma chain_first_to_attain {P F} (fc : func_caller F)
    (qs : list (qinfo P F)) (s s' : state P F) :
  chain (improved_by fc) qs s s' ->
  (forall q, In q qs -> real_valued q = true) ->
  forall seen,
    is_nan (curr_opt_val s) = false ->
    is_nan (curr_true_opt_val s) = false ->
    bounds_eligible fc (@val P F) seen (curr_opt_val s) ->
    bounds_eligible fc (@true_val P F) seen (curr_true_opt_val s) ->
    first_to_attain fc (@val P F) seen (curr_opt_val s) (curr_opt_point s) ->
    first_to_attain fc (@true_val P F) seen
      (curr_true_opt_val s) (curr_true_opt_point s) ->
    first_to_attain fc (@val P F) (seen ++ qs)
      (curr_opt_val s') (curr_opt_point s') /\
    first_to_attain fc (@true_val P F) (seen ++ qs)
      (curr_true_opt_val s') (curr_true_opt_point s').
Proof.
  intros H.
  induction H as [s|q qs s s1 s2 [Hv [Hp [Htv Htp]]] _ IH];
    intros Hreal seen Nv Nt Bv Bt Fv Ft.
  - rewrite app_nil_r. now split.
  - replace (seen ++ q :: qs)%list with ((seen ++ [q]) ++ qs)%list
      by (rewrite <- app_assoc; reflexivity).
    pose proof (Hreal q (or_introl eq_refl)) as Hq.
    unfold real_valued in Hq. apply andb_prop in Hq as [Hqv Hqt].
    apply negb_true_iff in Hqv. apply negb_true_iff in Hqt.
    destruct (@first_to_attain_step P F fc (@val P F) seen q _ _
                Hqv Nv Bv Fv) as [Nv' [Bv' Fv']].
    destruct (@first_to_attain_step P F fc (@true_val P F) seen q _ _
                Hqt Nt Bt Ft) as [Nt' [Bt' Ft']].
    rewrite <- Hv in Nv', Bv', Fv'. rewrite <- Hp in Fv'.
    rewrite <- Htv in Nt', Bt', Ft'. rewrite <- Htp in Ft'.
    apply IH; try assumption.
    intros q' Hin. apply Hreal. now right.
Qed.

(** X14.  Over a whole run the first record seen wins the ties: after
    set-up and the updates of records whose values are not NaN, when
    [curr_opt_point] is a point it is the point of an eligible record whose
    [val] is [curr_opt_val] and before which every eligible record has a
    strictly smaller [val]; likewise for the true optimum. *)
Theorem incumbent_is_the_first_record_to_attain_the_optimum :
  forall (P F : Type) (fc : func_caller F) (c : cls) (s0 : state P F)
         (qs : list (qinfo P F)),
    (forall q, In q qs -> real_valued q = true) ->
    exists s,
      updates fc c qs (after_set_up fc c s0) = (Ok tt, s) /\
      first_to_attain fc (@val P F) qs (curr_opt_val s) (curr_opt_point s) /\
      first_to_attain fc (@true_val P F) qs
        (curr_true_opt_val s) (curr_true_opt_point s).
Proof.
  intros P F fc c s0 qs Hreal.
  destruct (updates_chain c qs (set_up_ready fc c s0)) as [s [E [_ Hch]]].
  exists s. split; [exact E|].
  apply (@chain_first_to_attain P F fc qs _ s (child_chain_improved Hch)
           Hreal []).
  - now rewrite set_up_curr_opt_val.
  - now rewrite set_up_curr_true_opt_val.
  - intros q [].
  - intros q [].
  - rewrite set_up_curr_opt_val, set_up_curr_opt_point. reflexivity.
  - rewrite set_up_curr_true_opt_val, set_up_curr_true_opt_point. reflexivity.
Qed.

Lemma incumbent_is_the_first_record_to_attain_the_optimum_witness :
  let qs := [record 0 3 3 None; record 1 7 7 None; record 2 7 7 None] in
  exists s,
    updates sf_caller BlackboxOptimiser qs
      (after_set_up sf_caller BlackboxOptimiser blank) = (Ok tt, s) /\
    first_to_attain sf_caller (@val nat string) qs
      (curr_opt_val s) (curr_opt_point s) /\
    curr_opt_point s = Some 1%nat.
Proof.
  intros qs.
  destruct (@incumbent_is_the_first_record_to_attain_the_optimum nat string
              sf_caller BlackboxOptimiser blank qs) as [s [E [Hf _]]].
  - intros q [<-|[<-|[<-|[]]]]; reflexivity.
  - exists s. split; [exact E|]. split; [exact Hf|].
    unfold updates in E. vm_compute in E. injection E as <-. reflexivity.
Defined.
